(** * ECB key interest rates: fetch, merge and render

    Shallow embedding of [monetary_econ/generate_visualization.py].

    - A pandas [Series] is an index of timestamps with one observation per
      entry; an observation is a number or missing (NaN).  Observations are
      read as exact rationals: the rounding of binary floating point is not
      part of the model.
    - A pandas [DataFrame] is a shared index and an ordered list of named
      columns, each aligned with the index.
    - Exceptions are values of type [exn]; code that may raise returns a
      [result]; code that prints, calls the data API or touches the file
      system runs in the monad [M] over a [World]. *)

From Stdlib Require Import ZArith QArith Qabs Lia DecimalString Sorted.
From stdpp Require Import base list strings gmap.

Set Warnings "-register-all".

(** ** Exceptions *)

Record exn := Exn { exn_type : string; exn_msg : string }.

Inductive result (A : Type) : Type :=
| Ok (a : A)
| Raise (e : exn).
Arguments Ok {A} a.
Arguments Raise {A} e.

Definition KeyError (k : string) : exn := Exn "KeyError" ("'" +:+ k +:+ "'").
Definition IndexError (m : string) : exn := Exn "IndexError" m.

Definition result_bind {A B} (r : result A) (k : A -> result B) : result B :=
  match r with
  | Ok a => k a
  | Raise e => Raise e
  end.

#[global] Instance result_ret : MRet result := @Ok.
#[global] Instance result_mbind : MBind result :=
  fun A B k r => result_bind r k.

(** ** Timestamps *)

Record Timestamp := mkTimestamp { year : Z; month : Z; day : Z }.

Definition Timestamp_compare (a b : Timestamp) : comparison :=
  match (year a ?= year b)%Z with
  | Eq => match (month a ?= month b)%Z with
          | Eq => (day a ?= day b)%Z
          | c => c
          end
  | c => c
  end.

(** ** Observations and series *)

(** [None] is NaN. *)
Definition value : Type := option Q.

Definition notna (v : value) : bool :=
  match v with Some _ => true | None => false end.

(** A series: index labels with their observations, in index order. *)
Definition Series : Type := list (Timestamp * value).

Definition series_index (s : Series) : list Timestamp := s.*1.

(** The observation a series holds at label [d] (the first one, when the
    label is repeated). *)
Fixpoint series_at (d : Timestamp) (s : Series) : option value :=
  match s with
  | [] => None
  | (d', v) :: s' =>
      match Timestamp_compare d d' with
      | Eq => Some v
      | _ => series_at d s'
      end
  end.

(** [Series.dropna()]. *)
Definition dropna (s : Series) : Series :=
  filter (fun p => notna p.2 = true) s.

(** ** Data frames *)

Record DataFrame := mkDataFrame {
  df_index : list Timestamp;
  df_columns : list (string * list value)
}.

Definition column_names (t : DataFrame) : list string := (df_columns t).*1.

(** [name in df.columns] *)
Definition has_column (name : string) (t : DataFrame) : bool :=
  bool_decide (name ∈ column_names t).

Fixpoint assoc {A} (name : string) (l : list (string * A)) : option A :=
  match l with
  | [] => None
  | (n, a) :: l' => if String.eqb name n then Some a else assoc name l'
  end.

(** [df[name]] as a series carrying the frame's index. *)
Definition column_series (t : DataFrame) (c : list value) : Series :=
  zip (df_index t) c.

(** The observation of column [name] in row [i]. *)
Definition cell (t : DataFrame) (name : string) (i : nat) : option value :=
  c ← assoc name (df_columns t); c !! i.

(** *** Construction from a dict of series: outer join on the index

    The union of the indexes is kept in increasing order without
    repetition; every series is re-indexed on it, NaN where it has no
    observation. *)

Fixpoint insert_label (d : Timestamp) (l : list Timestamp) : list Timestamp :=
  match l with
  | [] => [d]
  | x :: r =>
      match Timestamp_compare d x with
      | Lt => d :: l
      | Eq => l
      | Gt => x :: insert_label d r
      end
  end.

Definition union_labels (acc ds : list Timestamp) : list Timestamp :=
  foldr insert_label acc ds.

Definition union_indexes (ss : list (list Timestamp)) : list Timestamp :=
  foldl union_labels [] ss.

Definition reindex (idx : list Timestamp) (s : Series) : list value :=
  (fun d => default None (series_at d s)) <$> idx.

(** [pd.DataFrame(data)] for a dict [data] of series, in insertion order.
    The series are those the data API delivers, with distinct labels; of a
    repeated label the first observation would be taken. *)
Definition DataFrame_of_dict (data : list (string * Series)) : DataFrame :=
  let idx := union_indexes (series_index <$> data.*2) in
  mkDataFrame idx (prod_map id (reindex idx) <$> data).

(** *** Row-wise mean, column assignment, column removal *)

Definition Qsum (xs : list Q) : Q := foldl Qplus 0%Q xs.

(** Mean of the observations present in one row; NaN when none is. *)
Definition nanmean (row : list value) : value :=
  match omap id row with
  | [] => None
  | xs => Some (Qsum xs / inject_Z (Z.of_nat (length xs)))%Q
  end.

(** The mean of every row over the given columns. *)
Definition row_means (n : nat) (cols : list (list value)) : list value :=
  (fun i => nanmean (omap (fun c : list value => c !! i) cols)) <$> seq 0 n.

(** [df[names].mean(axis=1)] *)
Definition mean_axis1 (t : DataFrame) (names : list string) : result (list value) :=
  match mapM (fun n => assoc n (df_columns t)) names with
  | None =>
      Raise (KeyError (default EmptyString (head (filter (fun n => assoc n (df_columns t) = None) names))))
  | Some cols => Ok (row_means (length (df_index t)) cols)
  end.

Fixpoint set_assoc {A} (name : string) (a : A) (l : list (string * A)) : list (string * A) :=
  match l with
  | [] => [(name, a)]
  | (n, b) :: l' =>
      if String.eqb name n then (n, a) :: l' else (n, b) :: set_assoc name a l'
  end.

(** [df[name] = c]: replaces the column in place, or appends a new one. *)
Definition set_column (name : string) (c : list value) (t : DataFrame) : DataFrame :=
  mkDataFrame (df_index t) (set_assoc name c (df_columns t)).

(** [df.drop(columns=names, inplace=True)]; a label that is not a column
    raises [KeyError]. *)
Definition drop_columns (names : list string) (t : DataFrame) : result DataFrame :=
  match filter (fun n => n ∉ column_names t) names with
  | [] => Ok (mkDataFrame (df_index t)
               (filter (fun p => p.1 ∉ names) (df_columns t)))
  | n :: _ => Raise (KeyError n)
  end.

(** ** The merge step of [fetch_ecb_rates] (lines 52-60) *)

Definition MRO_FIXED : string := "MRO (Fixed Rate)".
Definition MRO_VARIABLE : string := "MRO (Variable Rate)".

(** Lines 55-58. *)
Definition combine_mro (combined_rates : DataFrame) : result DataFrame :=
  if has_column MRO_FIXED combined_rates && has_column MRO_VARIABLE combined_rates
  then
    m ← mean_axis1 combined_rates [MRO_FIXED; MRO_VARIABLE];
    drop_columns [MRO_FIXED; MRO_VARIABLE] (set_column "MRO" m combined_rates)
  else Ok combined_rates.

(** Lines 52-60: from the dict of fetched series to the returned table. *)
Definition merge (rates_data : list (string * Series)) : result DataFrame :=
  combine_mro (DataFrame_of_dict rates_data).

(** ** The outside world

    The file system is a tree below the working directory; a path is the
    list of its components, outermost first, and the empty list is the
    empty path string.  Component names are plain names. *)

Inductive node :=
| File (content : string)
| Dir (entries : gmap string node).

Definition path : Type := list string.

Definition path_str (p : path) : string := String.concat "/" p.

(** What the path names, starting from directory [n]. *)
Fixpoint resolve (n : node) (p : path) : option node :=
  match p with
  | [] => Some n
  | c :: p' =>
      match n with
      | Dir m => n' ← m !! c; resolve n' p'
      | File _ => None
      end
  end.

(** Puts [x] at [p], creating or replacing the last component.  Nothing
    changes when an inner component is missing or is a regular file. *)
Fixpoint update (n : node) (p : path) (x : node) : node :=
  match p with
  | [] => x
  | c :: p' =>
      match n with
      | Dir m =>
          match p', m !! c with
          | [], _ => Dir (<[c := x]> m)
          | _, Some n' => Dir (<[c := update n' p' x]> m)
          | _, None => n
          end
      | File _ => n
      end
  end.

Definition is_dir_node (o : option node) : bool :=
  match o with Some (Dir _) => true | _ => false end.

(** [os.path.exists] and [os.path.isdir]: false on the empty string. *)
Definition os_path_exists (root : node) (p : path) : bool :=
  if bool_decide (p = []) then false
  else bool_decide (is_Some (resolve root p)).

Definition os_path_isdir (root : node) (p : path) : bool :=
  if bool_decide (p = []) then false
  else is_dir_node (resolve root p).

(** [os.path.split] and [os.path.dirname] on component lists. *)
Definition os_path_split (p : path) : path * string :=
  (removelast p, List.last p EmptyString).

Definition os_path_dirname (p : path) : path := (os_path_split p).1.

Definition FileNotFoundError (p : path) : exn :=
  Exn "FileNotFoundError" ("[Errno 2] No such file or directory: '" +:+ path_str p +:+ "'").
Definition FileExistsError (p : path) : exn :=
  Exn "FileExistsError" ("[Errno 17] File exists: '" +:+ path_str p +:+ "'").
Definition NotADirectoryError (p : path) : exn :=
  Exn "NotADirectoryError" ("[Errno 20] Not a directory: '" +:+ path_str p +:+ "'").
Definition IsADirectoryError (p : path) : exn :=
  Exn "IsADirectoryError" ("[Errno 21] Is a directory: '" +:+ path_str p +:+ "'").

(** The error of a system call whose path cannot be walked down to the
    parent of its last component. *)
Fixpoint walk_error (n : node) (p whole : path) : exn :=
  match p with
  | [] => FileNotFoundError whole
  | c :: p' =>
      match n with
      | File _ => NotADirectoryError whole
      | Dir m =>
          match m !! c with
          | Some n' => walk_error n' p' whole
          | None => FileNotFoundError whole
          end
      end
  end.

(** [os.mkdir] *)
Definition os_mkdir (p : path) (root : node) : result node :=
  if bool_decide (p = []) then Raise (FileNotFoundError p)
  else if bool_decide (is_Some (resolve root p)) then Raise (FileExistsError p)
  else if is_dir_node (resolve root (removelast p))
       then Ok (update root p (Dir ∅))
       else Raise (walk_error root (removelast p) p).

(** [os.makedirs(name, exist_ok=True)], on the reversed path: the
    recursion is on [head].  The last component [tail] of a non-empty path
    is a name, so of the test [head and tail and not path.exists(head)]
    the part on [tail] always holds. *)
Fixpoint makedirs_rev (rname : path) (root : node) : result node :=
  let name := rev rname in
  root1 ←
    match rname with
    | [] => Ok root
    | tail :: rhead =>
        let head := rev rhead in
        if negb (bool_decide (head = [])) && negb (os_path_exists root head)
        then
          match makedirs_rev rhead root with
          | Ok r => Ok r
          | Raise e =>
              if bool_decide (exn_type e = "FileExistsError") then Ok root else Raise e
          end
        else Ok root
    end;
  match os_mkdir name root1 with
  | Ok r => Ok r
  | Raise e => if os_path_isdir root1 name then Ok root1 else Raise e
  end.

Definition os_makedirs (name : path) (root : node) : result node :=
  makedirs_rev (rev name) root.

(** [open(p, 'w')] followed by one [write] and the close. *)
Definition write_file (p : path) (content : string) (root : node) : result node :=
  if bool_decide (p = []) then Raise (FileNotFoundError p)
  else if is_dir_node (resolve root p) then Raise (IsADirectoryError p)
  else if is_dir_node (resolve root (removelast p))
       then Ok (update root p (File content))
       else Raise (walk_error root (removelast p) p).

(** *** The data API, the clock and the chart library *)

(** What [ecbdata.get_series] answers: a frame whose dates are either a
    [TIME_PERIOD] column or its index, and whose observations are the
    [OBS_VALUE] column.  The labels are taken as already parsed: a response
    whose dates [pd.to_datetime] rejects counts as a call that raises. *)
Record RawFrame := mkRawFrame {
  raw_index : list Timestamp;
  raw_TIME_PERIOD : option (list Timestamp);
  raw_OBS_VALUE : option (list value)
}.

Record DateTime := mkDateTime {
  dt_date : Timestamp; hour : Z; minute : Z; second : Z
}.

Record Line := mkLine {
  line_width : Z; line_dash : option string; line_color : option string
}.

Record Scatter := mkScatter {
  sc_x : list Timestamp;
  sc_y : list value;
  sc_name : string;
  sc_line : Line;
  sc_hovertemplate : string
}.

Record Layout := mkLayout {
  layout_title : string; xaxis_title : string; yaxis_title : string;
  hovermode : string
}.

Record Figure := mkFigure { fig_data : list Scatter; fig_layout : option Layout }.

Record Env := mkEnv {
  ecbdata_get_series : string -> string -> result RawFrame;
  datetime_now : DateTime;
  fig_to_html : Figure -> string
}.

(** *** State: file system, standard output, calls made to the data API *)

Record World := mkWorld {
  w_fs : node;
  w_stdout : list string;
  w_calls : list (string * string)
}.

Definition M (A : Type) : Type := World -> result A * World.

#[global] Instance M_ret : MRet M := fun A a w => (Ok a, w).
#[global] Instance M_bind : MBind M := fun A B k c w =>
  match c w with
  | (Ok a, w') => k a w'
  | (Raise e, w') => (Raise e, w')
  end.

(** [try: body except Exception as e: handler(e)] *)
Definition try_except {A} (body : M A) (handler : exn -> M A) : M A :=
  fun w =>
    match body w with
    | (Ok a, w') => (Ok a, w')
    | (Raise e, w') => handler e w'
    end.

Definition lift {A} (r : result A) : M A := fun w => (r, w).

Definition print (s : string) : M unit := fun w =>
  (Ok (), mkWorld (w_fs w) (w_stdout w ++ [s]) (w_calls w)).

Definition on_fs (f : node -> result node) : M unit := fun w =>
  match f (w_fs w) with
  | Ok r => (Ok (), mkWorld r (w_stdout w) (w_calls w))
  | Raise e => (Raise e, w)
  end.

Definition get_series (env : Env) (series_key start : string) : M RawFrame := fun w =>
  (ecbdata_get_series env series_key start,
   mkWorld (w_fs w) (w_stdout w) (w_calls w ++ [(series_key, start)])).

(** ** [fetch_ecb_rates] *)

Definition SERIES_KEYS : list (string * string) :=
  [ ("MRO (Fixed Rate)", "FM.D.U2.EUR.4F.KR.MRR_FR.LEV");
    ("MRO (Variable Rate)", "FM.D.U2.EUR.4F.KR.MRR_MBR.LEV");
    ("DFR", "FM.D.U2.EUR.4F.KR.DFR.LEV");
    ("MLF", "FM.D.U2.EUR.4F.KR.MLFR.LEV");
    ("EONIA", "EON.D.EONIA_TO.RATE");
    ("€STR", "EST.B.EU000A2X2A25.WT") ].

(** Lines 43-48: the observations indexed by date. *)
Definition obs_series (df : RawFrame) : result Series :=
  let index := match raw_TIME_PERIOD df with
               | Some tp => tp
               | None => raw_index df
               end in
  match raw_OBS_VALUE df with
  | Some obs => Ok (zip index obs)
  | None => Raise (KeyError "OBS_VALUE")
  end.

(** Lines 40-50: one turn of the loop. *)
Definition fetch_one (env : Env) (start_date : string)
    (rates_data : list (string * Series)) (item : string * string)
  : M (list (string * Series)) :=
  let '(rate_name, series_key) := item in
  try_except
    (df ← get_series env series_key start_date;
     s ← lift (obs_series df);
     mret (set_assoc rate_name s rates_data))
    (fun e =>
       _ ← print ("Error fetching " +:+ rate_name +:+ ": " +:+ exn_msg e);
       mret rates_data).

Fixpoint for_each {A B} (f : A -> B -> M A) (a : A) (items : list B) : M A :=
  match items with
  | [] => mret a
  | b :: items' => a' ← f a b; for_each f a' items'
  end.

(** Lines 36-50: the dict of the series that could be fetched. *)
Definition fetch_all (env : Env) (start_date : string) : M (list (string * Series)) :=
  for_each (fetch_one env start_date) [] SERIES_KEYS.

Definition fetch_ecb_rates (env : Env) (start_date : string) : M DataFrame :=
  rates_data ← fetch_all env start_date;
  lift (merge rates_data).

(** ** Formatting *)

Definition str_of_Z (z : Z) : string := NilZero.string_of_int (Z.to_int z).

(** Zero-padding of a non-negative number to [w] digits. *)
Definition zero_pad (w : nat) (z : Z) : string :=
  let s := str_of_Z z in
  String.concat EmptyString (replicate (w - String.length s) "0") +:+ s.

(** The nearest integer to [q], ties to even. *)
Definition round_half_even (q : Q) : Z :=
  let d := Z.pos (Qden q) in
  let k := (Qnum q / d)%Z in
  match (2 * (Qnum q mod d) ?= d)%Z with
  | Lt => k
  | Gt => (k + 1)%Z
  | Eq => if Z.even k then k else (k + 1)%Z
  end.

(** [f"{q:.3f}"] *)
Definition format_3f (q : Q) : string :=
  let n := round_half_even (Qabs q * 1000) in
  (if Qlt_le_dec q 0 then "-" else EmptyString)
  +:+ str_of_Z (n / 1000) +:+ "." +:+ zero_pad 3 (n mod 1000).

(** [d.strftime('%Y-%m-%d')] *)
Definition strftime_Ymd (d : Timestamp) : string :=
  zero_pad 4 (year d) +:+ "-" +:+ zero_pad 2 (month d) +:+ "-" +:+ zero_pad 2 (day d).

(** [t.strftime('%Y-%m-%d %H:%M:%S')] *)
Definition strftime_YmdHMS (t : DateTime) : string :=
  strftime_Ymd (dt_date t) +:+ " " +:+ zero_pad 2 (hour t) +:+ ":"
  +:+ zero_pad 2 (minute t) +:+ ":" +:+ zero_pad 2 (second t).

(** ** [create_interactive_plot] *)

Definition DEFAULT_START_DATE : string := "1999-01".

Definition policy_rates : list string := ["MRO"; "DFR"; "MLF"].

Definition reference_rates : list (string * string) :=
  [("€STR", "rgba(240,128,128,0.8)"); ("EONIA", "rgba(176,196,222,0.8)")].

Definition hover_text (rate : string) : string :=
  "%{x|%Y-%m-%d}<br>" +:+ rate +:+ ": %{y:.3f}%<br>" +:+ "<extra></extra>".

(** Lines 82-94: one solid trace per policy rate that is a column. *)
Definition add_policy_traces (rates_df : DataFrame) (fig : list Scatter) : list Scatter :=
  foldl (fun fig rate =>
           match assoc rate (df_columns rates_df) with
           | Some c =>
               fig ++ [mkScatter (df_index rates_df) c rate
                         (mkLine 2 None None) (hover_text rate)]
           | None => fig
           end) fig policy_rates.

(** Lines 97-110: one dashed trace per reference rate that is a column. *)
Definition add_reference_traces (rates_df : DataFrame) (fig : list Scatter) : list Scatter :=
  foldl (fun fig '(rate, color) =>
           match assoc rate (df_columns rates_df) with
           | Some c =>
               fig ++ [mkScatter (df_index rates_df) c rate
                         (mkLine 2 (Some "dash") (Some color)) (hover_text rate)]
           | None => fig
           end) fig reference_rates.

(** Lines 78-136.  Of the layout the titles and the hover mode are kept;
    colours, grid and margins are presentation only. *)
Definition build_figure (rates_df : DataFrame) : Figure :=
  mkFigure (add_reference_traces rates_df (add_policy_traces rates_df []))
           (Some (mkLayout "ECB Key Interest Rates and Reference Rates"
                           "Date" "Rate (%)" "x unified")).

(** [rates_df.iloc[-1]]: the last row, labelled by the column names. *)
Definition iloc_last (t : DataFrame) : result (list (string * value)) :=
  match length (df_index t) with
  | O => Raise (IndexError "single positional indexer is out-of-bounds")
  | S n => Ok (prod_map id (fun c : list value => default None (c !! n)) <$> df_columns t)
  end.

(** Lines 142-143: the observations of a reference rate that are not
    missing; the empty series when the rate is not a column. *)
Definition available (rate : string) (rates_df : DataFrame) : Series :=
  match assoc rate (df_columns rates_df) with
  | Some c => dropna (column_series rates_df c)
  | None => []
  end.

(** Lines 151-155. *)
Definition policy_items (latest_rates : list (string * value)) : string :=
  foldl (fun rates_info rate_name =>
           if bool_decide (rate_name ∈ latest_rates.*1) then
             match default None (assoc rate_name latest_rates) with
             | Some v =>
                 rates_info +:+ "<li><strong>" +:+ rate_name +:+ ":</strong> "
                 +:+ format_3f v +:+ "%</li>"
             | None => rates_info
             end
           else rates_info) EmptyString policy_rates.

(** Lines 158-166: [label] introduces the date of the observation.  The
    series comes from [dropna], so its last observation is not missing. *)
Definition reference_item (rate label : string) (s : Series) : string :=
  match last s with
  | Some (d, Some v) =>
      "<li><strong>" +:+ rate +:+ ":</strong> " +:+ format_3f v +:+ "% ("
      +:+ label +:+ " " +:+ strftime_Ymd d +:+ ")</li>"
  | _ => EmptyString
  end.

(** Lines 146-148 and 168-172: what opens and what closes the summary. *)
Definition summary_open : string :=
  "<div style='font-family: Arial, sans-serif; padding: 10px; background-color: #f8f9fa; border-radius: 5px; margin-bottom: 20px;'>"
  +:+ "<h3>Latest Available Rates:</h3>"
  +:+ "<ul>".

Definition summary_close (env : Env) : string :=
  "</ul>"
  +:+ "<p><em>Last updated: " +:+ strftime_YmdHMS (datetime_now env) +:+ "</em></p>"
  +:+ "</div>".

(** Lines 139-172: the summary block. *)
Definition rates_summary (env : Env) (rates_df : DataFrame) : result string :=
  latest_rates ← iloc_last rates_df;
  let estr_series := available "€STR" rates_df in
  let eonia_series := available "EONIA" rates_df in
  Ok (summary_open
      +:+ policy_items latest_rates
      +:+ reference_item "€STR" "as of" estr_series
      +:+ reference_item "EONIA" "discontinued on" eonia_series
      +:+ summary_close env).

Definition create_interactive_plot (env : Env)
    (rates_df : option DataFrame) (output_path : path) : M (option path) :=
  fetched ←
    match rates_df with
    | Some t => mret (Some t)
    | None =>
        try_except
          (t ← fetch_ecb_rates env DEFAULT_START_DATE; mret (Some t))
          (fun e =>
             _ ← print ("Error fetching ECB rates: " +:+ exn_msg e);
             mret None)
    end;
  match fetched with
  | None => mret None
  | Some rates_df =>
      let fig := build_figure rates_df in
      rates_info ← lift (rates_summary env rates_df);
      let html_content := rates_info +:+ fig_to_html env fig in
      _ ← on_fs (os_makedirs (os_path_dirname output_path));
      _ ← on_fs (write_file output_path html_content);
      _ ← print ("ECB rates visualization has been saved to " +:+ path_str output_path);
      mret (Some output_path)
  end.

(** ** [main] *)

Record Args := mkArgs { start_date : string; output : path }.

(** The body of [main] after the arguments are parsed, over the two
    stages it calls. *)
Definition main_with
    (fetch : string -> M DataFrame)
    (render : option DataFrame -> path -> M (option path))
    (args : Args) : M Z :=
  try_except
    (rates ← fetch (start_date args);
     _ ← render (Some rates) (output args);
     mret 0%Z)
    (fun e =>
       _ ← print ("Error generating visualization: " +:+ exn_msg e);
       mret 1%Z).

Definition main (env : Env) (args : Args) : M Z :=
  main_with (fetch_ecb_rates env) (create_interactive_plot env) args.

(** ** Notions used to state the properties *)

(** The table's columns as the dict of series that [merge] takes. *)
Definition frame_series (t : DataFrame) : list (string * Series) :=
  prod_map id (column_series t) <$> df_columns t.

(** What lines 56-58 leave when both sub-series are columns [f] and [v]. *)
Definition combined (t : DataFrame) (f v : list value) : DataFrame :=
  mkDataFrame (df_index t)
    (filter (fun p => p.1 ∉ [MRO_FIXED; MRO_VARIABLE])
       (set_assoc "MRO" (row_means (length (df_index t)) [f; v]) (df_columns t))).

(** A frame whose columns all have one observation per index label. *)
Definition aligned (t : DataFrame) : Prop :=
  Forall (fun p : string * list value => length p.2 = length (df_index t)) (df_columns t).

Definition Timestamp_lt (a b : Timestamp) : Prop := Timestamp_compare a b = Lt.

(** What the try block of one loop turn computes for a series key. *)
Definition fetch_result (env : Env) (start_date series_key : string) : result Series :=
  df ← ecbdata_get_series env series_key start_date; obs_series df.

(** The series that could be fetched, in the order of [SERIES_KEYS]. *)
Definition fetched_series (env : Env) (start_date : string) : list (string * Series) :=
  omap (fun item : string * string =>
          match fetch_result env start_date item.2 with
          | Ok s => Some (item.1, s)
          | Raise _ => None
          end) SERIES_KEYS.

(** The lines printed for the series that could not be fetched. *)
Definition fetch_errors (env : Env) (start_date : string) : list string :=
  omap (fun item : string * string =>
          match fetch_result env start_date item.2 with
          | Ok _ => None
          | Raise e => Some ("Error fetching " +:+ item.1 +:+ ": " +:+ exn_msg e)
          end) SERIES_KEYS.

Definition is_Raise {A} (r : result A) : Prop :=
  match r with Raise _ => True | Ok _ => False end.

Definition is_Ok {A} (r : result A) : Prop :=
  match r with Ok _ => True | Raise _ => False end.


(** [sub] occurs in [s]. *)
Definition contains (sub s : string) : Prop :=
  exists pre post, s = pre +:+ sub +:+ post.

Fixpoint starts_with (sub s : string) : bool :=
  match sub, s with
  | EmptyString, _ => true
  | String a sub', String b s' => Ascii.eqb a b && starts_with sub' s'
  | String _ _, EmptyString => false
  end.

Fixpoint containsb (sub s : string) : bool :=
  starts_with sub s
  || match s with
     | EmptyString => false
     | String _ s' => containsb sub s'
     end.

(** The observation of column [rate] in the last row. *)
Definition latest_value (t : DataFrame) (rate : string) : option value :=
  c ← assoc rate (df_columns t); c !! pred (length (df_index t)).

(** The entry of the summary for a policy rate. *)
Definition policy_entry (rate : string) (v : Q) : string :=
  "<li><strong>" +:+ rate +:+ ":</strong> " +:+ format_3f v +:+ "%</li>".

(** What one turn of the loop over the policy rates adds. *)
Definition policy_step (latest_rates : list (string * value)) (rate_name : string) : string :=
  if bool_decide (rate_name ∈ latest_rates.*1) then
    match default None (assoc rate_name latest_rates) with
    | Some v => policy_entry rate_name v
    | None => EmptyString
    end
  else EmptyString.

(** The entry of a policy rate in the summary of [t]: there is one when the
    rate has an observation in the last row. *)
Definition summary_entry (t : DataFrame) (rate : string) : string :=
  match latest_value t rate with
  | Some (Some v) => policy_entry rate v
  | _ => EmptyString
  end.

(** Every directory of [p] made present below [n], outermost first; what
    is already there is kept. *)
Fixpoint ensure_dirs (n : node) (p : path) : node :=
  match p with
  | [] => n
  | c :: p' =>
      match n with
      | Dir m => Dir (<[c := ensure_dirs (default (Dir ∅) (m !! c)) p']> m)
      | File _ => n
      end
  end.

(** No regular file sits at [p] or above it. *)
Definition no_file_on (root : node) (p : path) : Prop :=
  forall q, q `prefix_of` p -> forall s, resolve root q <> Some (File s).


Definition stdout_add (w : World) (lines : list string) : World :=
  mkWorld (w_fs w) (w_stdout w ++ lines) (w_calls w).

Definition calls_add (w : World) (calls : list (string * string)) : World :=
  mkWorld (w_fs w) (w_stdout w) (w_calls w ++ calls).

(** A regular file sits at [p] or above it. *)
Definition file_on (root : node) (p : path) : Prop :=
  exists q s, q `prefix_of` p /\ resolve root q = Some (File s).

(** What rendering [t] to [p] below [root] needs: a row in the table, a
    directory part in the path with no regular file at or above it, and no
    directory at the path itself. *)
Definition can_render (t : DataFrame) (root : node) (p : path) : Prop :=
  df_index t <> []
  /\ os_path_dirname p <> []
  /\ no_file_on root (os_path_dirname p)
  /\ is_dir_node (resolve root p) = false.

(** The file system after rendering [content] to [p]. *)
Definition rendered_fs (root : node) (p : path) (content : string) : node :=
  update (ensure_dirs root (os_path_dirname p)) p (File content).

(** The line printed after the file is written (line 184). *)
Definition saved_line (p : path) : string :=
  "ECB rates visualization has been saved to " +:+ path_str p.

(** ** Sample inputs *)

Module Sample.

Definition d0101 : Timestamp := mkTimestamp 2024 1 1.
Definition d0102 : Timestamp := mkTimestamp 2024 1 2.
Definition d0103 : Timestamp := mkTimestamp 2024 1 3.

Definition response (s : Series) : RawFrame :=
  mkRawFrame [] (Some s.*1) (Some s.*2).

Definition clock : DateTime := mkDateTime (mkTimestamp 2025 3 4) 5 6 7.

Definition plot_html (f : Figure) : string :=
  "<div>" +:+ String.concat "," (sc_name <$> fig_data f) +:+ "</div>".

(** Every series is served, except the deposit facility rate. *)
Definition api_no_dfr (series_key start : string) : result RawFrame :=
  if String.eqb series_key "FM.D.U2.EUR.4F.KR.MRR_FR.LEV"
  then Ok (response [(d0101, Some 4.50%Q)])
  else if String.eqb series_key "FM.D.U2.EUR.4F.KR.MRR_MBR.LEV"
  then Ok (response [(d0101, Some 4.75%Q); (d0103, None)])
  else if String.eqb series_key "FM.D.U2.EUR.4F.KR.DFR.LEV"
  then Raise (Exn "HTTPError" "404 Client Error")
  else if String.eqb series_key "FM.D.U2.EUR.4F.KR.MLFR.LEV"
  then Ok (response [(d0101, Some 5.00%Q); (d0102, Some 5.25%Q)])
  else if String.eqb series_key "EON.D.EONIA_TO.RATE"
  then Ok (mkRawFrame [d0101] None (Some [Some 3.9%Q]))
  else Ok (response [(d0102, Some 3.905%Q)]).

(** No series is served. *)
Definition api_down (series_key start : string) : result RawFrame :=
  Raise (Exn "ConnectionError" "Max retries exceeded").

Definition env_no_dfr : Env := mkEnv api_no_dfr clock plot_html.
Definition env_down : Env := mkEnv api_down clock plot_html.

Definition world0 : World := mkWorld (Dir ∅) [] [].

Definition args0 : Args := mkArgs "1999-01" ["static"; "html"; "ecb_rates.html"].

(** The two sub-series of the main refinancing rate on one date. *)
Definition mro_pair : list (string * Series) :=
  [ (MRO_FIXED, [(d0101, Some 4.50%Q)]);
    (MRO_VARIABLE, [(d0101, Some 4.75%Q)]) ].

(** Both sub-series and the deposit facility rate, on different dates. *)
Definition three_series : list (string * Series) :=
  mro_pair ++ [("DFR", [(d0102, Some 4.75%Q)])].

Definition merged_three : DataFrame :=
  Eval vm_compute in
    match merge three_series with
    | Ok t => t
    | Raise _ => mkDataFrame [] []
    end.

(** The three policy rates on the latest date. *)
Definition policy_table : DataFrame :=
  mkDataFrame [d0101; d0102]
    [ ("MRO", [Some 4.25%Q; Some 4.50%Q]);
      ("DFR", [Some 4.00%Q; Some 4.75%Q]);
      ("MLF", [Some 4.75%Q; Some 5.00%Q]) ].

(** The deposit facility rate has no observation on the latest date. *)
Definition stale_table : DataFrame :=
  mkDataFrame [d0101; d0102]
    [ ("DFR", [Some 4.00%Q; None]);
      ("€STR", [None; Some 3.905%Q]) ].

Definition empty_table : DataFrame := mkDataFrame [] [].

End Sample.

(** * Properties *)

(** ** The order on timestamps *)

Section TimestampOrder.

Lemma Timestamp_compare_refl a : Timestamp_compare a a = Eq.
Proof. unfold Timestamp_compare. by rewrite !Z.compare_refl. Qed.

Lemma Timestamp_compare_eq a b : Timestamp_compare a b = Eq -> a = b.
Proof.
  destruct a as [ya ma da], b as [yb mb db]. unfold Timestamp_compare. simpl.
  destruct (Z.compare_spec ya yb); try discriminate.
  destruct (Z.compare_spec ma mb); try discriminate.
  destruct (Z.compare_spec da db); try discriminate.
  intros _. congruence.
Qed.

Lemma Timestamp_compare_antisym a b :
  Timestamp_compare b a = CompOpp (Timestamp_compare a b).
Proof.
  unfold Timestamp_compare.
  rewrite (Z.compare_antisym (year a)), (Z.compare_antisym (month a)),
    (Z.compare_antisym (day a)).
  destruct (year a ?= year b)%Z; simpl; try done.
  destruct (month a ?= month b)%Z; simpl; done.
Qed.

Lemma Timestamp_lt_spec a b :
  Timestamp_lt a b <->
  (year a < year b \/ (year a = year b /\
    (month a < month b \/ (month a = month b /\ day a < day b))))%Z.
Proof.
  unfold Timestamp_lt, Timestamp_compare.
  destruct (Z.compare_spec (year a) (year b));
    destruct (Z.compare_spec (month a) (month b));
    destruct (Z.compare_spec (day a) (day b)); split; intros; try done; lia.
Qed.

Lemma Timestamp_lt_trans a b c :
  Timestamp_lt a b -> Timestamp_lt b c -> Timestamp_lt a c.
Proof. rewrite !Timestamp_lt_spec. lia. Qed.

Lemma Timestamp_lt_gt a b : Timestamp_lt a b -> Timestamp_compare b a = Gt.
Proof. unfold Timestamp_lt. intros H. by rewrite Timestamp_compare_antisym, H. Qed.

Lemma Timestamp_gt_lt a b : Timestamp_compare a b = Gt -> Timestamp_lt b a.
Proof. unfold Timestamp_lt. intros H. by rewrite Timestamp_compare_antisym, H. Qed.

Lemma Timestamp_lt_irrefl a : ~ Timestamp_lt a a.
Proof. unfold Timestamp_lt. by rewrite Timestamp_compare_refl. Qed.

End TimestampOrder.

(** ** The outer join *)

Section Join.

Local Abbreviation sorted := (StronglySorted Timestamp_lt).

Lemma insert_label_elem d l x : x ∈ insert_label d l <-> x = d \/ x ∈ l.
Proof.
  induction l as [|y r IH]; simpl.
  - rewrite list_elem_of_singleton, elem_of_nil. tauto.
  - destruct (Timestamp_compare d y) eqn:E.
    + apply Timestamp_compare_eq in E as ->. rewrite elem_of_cons. tauto.
    + by rewrite (elem_of_cons (y :: r)).
    + rewrite !elem_of_cons, IH. tauto.
Qed.

Lemma insert_label_sorted d l : sorted l -> sorted (insert_label d l).
Proof.
  induction 1 as [|y r Hr IH Hy]; simpl.
  - repeat constructor.
  - destruct (Timestamp_compare d y) eqn:E.
    + by constructor.
    + constructor; [by constructor|].
      constructor; [done|].
      eapply Forall_impl; [exact Hy|]. intros z Hz.
      by eapply Timestamp_lt_trans.
    + constructor; [done|].
      apply Forall_forall. intros z Hz%insert_label_elem.
      destruct Hz as [->|Hz]; [by apply Timestamp_gt_lt|].
      by eapply Forall_forall in Hy.
Qed.

Lemma insert_label_present d l : sorted l -> d ∈ l -> insert_label d l = l.
Proof.
  induction 1 as [|y r Hr IH Hy]; intros Hd; [by apply elem_of_nil in Hd|].
  simpl. apply elem_of_cons in Hd as [->|Hd].
  - by rewrite Timestamp_compare_refl.
  - rewrite (Timestamp_lt_gt y d); [by rewrite IH|].
    by eapply Forall_forall in Hy.
Qed.

Lemma insert_label_least d l :
  Forall (Timestamp_lt d) l -> insert_label d l = d :: l.
Proof. destruct 1 as [|y r Hy _]; simpl; [done|]. by rewrite Hy. Qed.

Lemma union_labels_sorted acc ds : sorted acc -> sorted (union_labels acc ds).
Proof.
  intros Hacc. induction ds as [|d ds IH]; simpl; [done|].
  by apply insert_label_sorted.
Qed.

Lemma union_labels_present acc ds :
  sorted acc -> ds ⊆ acc -> union_labels acc ds = acc.
Proof.
  intros Hacc. induction ds as [|d ds IH]; simpl; intros Hsub; [done|].
  rewrite IH.
  - apply insert_label_present; [done|]. apply Hsub, list_elem_of_here.
  - intros z Hz. by apply Hsub, list_elem_of_further.
Qed.

Lemma union_labels_nil ds : sorted ds -> union_labels [] ds = ds.
Proof.
  induction 1 as [|d ds Hds IH Hd]; simpl; [done|].
  rewrite IH. by apply insert_label_least.
Qed.

Lemma foldl_union_labels_sorted acc ss :
  sorted acc -> sorted (foldl union_labels acc ss).
Proof.
  revert acc. induction ss as [|s ss IH]; simpl; intros acc Hacc; [done|].
  by apply IH, union_labels_sorted.
Qed.

Lemma union_indexes_sorted ss : sorted (union_indexes ss).
Proof. apply foldl_union_labels_sorted. constructor. Qed.

Lemma foldl_union_labels_same idx k :
  sorted idx -> foldl union_labels idx (replicate k idx) = idx.
Proof.
  intros Hidx. induction k as [|k IH]; simpl; [done|].
  by rewrite union_labels_present.
Qed.

(** The join of series that all carry the index [idx] has index [idx]. *)
Lemma union_indexes_same idx k :
  sorted idx -> k <> 0%nat -> union_indexes (replicate k idx) = idx.
Proof.
  intros Hidx Hk. destruct k as [|k]; [done|].
  unfold union_indexes. simpl. rewrite union_labels_nil by done.
  by apply foldl_union_labels_same.
Qed.

Lemma sorted_NoDup l : sorted l -> NoDup l.
Proof.
  induction 1 as [|d l Hl IH Hd]; constructor; [|done].
  intros Hin. eapply Forall_forall in Hd; [|done].
  by apply Timestamp_lt_irrefl in Hd.
Qed.

(** Re-indexing a column on its own index gives the column back. *)
Lemma reindex_column idx (c : list value) :
  NoDup idx -> length c = length idx -> reindex idx (zip idx c) = c.
Proof.
  unfold reindex. intros Hnd. revert c.
  induction Hnd as [|x idx Hx Hnd IH]; intros [|v c] Hlen; simpl in *; try done.
  rewrite Timestamp_compare_refl. simpl. f_equal.
  etrans; [|apply (IH c); lia].
  apply map_ext_in. intros d Hd%list_elem_of_In.
  destruct (Timestamp_compare d x) eqn:E; try done.
  apply Timestamp_compare_eq in E as ->. done.
Qed.

Lemma DataFrame_of_dict_aligned data : aligned (DataFrame_of_dict data).
Proof.
  unfold aligned, DataFrame_of_dict. simpl.
  apply Forall_fmap, Forall_forall. intros [n s] _. simpl.
  unfold reindex. by rewrite length_fmap.
Qed.

Lemma DataFrame_of_dict_names data : column_names (DataFrame_of_dict data) = data.*1.
Proof.
  unfold column_names, DataFrame_of_dict. simpl.
  rewrite <- list_fmap_compose. apply list_fmap_ext. by intros ? [].
Qed.

(** Building a frame from the columns of an aligned frame with a sorted
    index gives the frame back. *)
Lemma DataFrame_of_frame_series t :
  sorted (df_index t) -> aligned t -> (df_columns t = [] -> df_index t = []) ->
  DataFrame_of_dict (frame_series t) = t.
Proof.
  destruct t as [idx cols]. unfold aligned, DataFrame_of_dict, frame_series. simpl.
  intros Hs Hal Hnil.
  assert (series_index <$> (prod_map id (column_series (mkDataFrame idx cols)) <$> cols).*2
          = replicate (length cols) idx) as ->.
  { clear Hnil. induction Hal as [|[n c] cols Hc Hal IH]; simpl; [done|].
    f_equal; [|done]. unfold series_index, column_series. simpl in *.
    by rewrite fst_zip by lia. }
  destruct cols as [|p cols].
  { simpl. by rewrite Hnil. }
  rewrite union_indexes_same by done. f_equal.
  rewrite <- list_fmap_compose.
  etrans; [|apply list_fmap_id].
  apply Forall_fmap_ext. eapply Forall_impl; [exact Hal|].
  intros [n c] Hc. simpl in *. unfold column_series. simpl.
  by rewrite reindex_column by (done || by apply sorted_NoDup).
Qed.

End Join.

(** ** Columns by name *)

Section Columns.

Context {A : Type}.
Implicit Types (l : list (string * A)) (a : A).

Lemma assoc_None name l : assoc name l = None <-> name ∉ l.*1.
Proof.
  induction l as [|[n b] l IH]; simpl.
  - split; [intros _; apply not_elem_of_nil | done].
  - rewrite not_elem_of_cons. destruct (String.eqb_spec name n) as [->|Hne].
    + split; [done | by intros []].
    + rewrite IH. tauto.
Qed.

Lemma assoc_is_Some name l : is_Some (assoc name l) <-> name ∈ l.*1.
Proof.
  rewrite <- not_eq_None_Some, assoc_None.
  destruct (decide (name ∈ l.*1)); tauto.
Qed.

Lemma assoc_fmap {B} (f : A -> B) name l :
  assoc name (prod_map id f <$> l) = f <$> assoc name l.
Proof.
  induction l as [|[n b] l IH]; simpl; [done|].
  by destruct (String.eqb name n).
Qed.

Lemma assoc_set_assoc_eq name a l : assoc name (set_assoc name a l) = Some a.
Proof.
  induction l as [|[n b] l IH]; simpl.
  - by rewrite String.eqb_refl.
  - destruct (String.eqb_spec name n) as [->|Hne]; simpl.
    + by rewrite String.eqb_refl.
    + by destruct (String.eqb_spec name n).
Qed.

Lemma assoc_set_assoc_ne name n a l :
  n <> name -> assoc n (set_assoc name a l) = assoc n l.
Proof.
  intros Hne. induction l as [|[m b] l IH]; simpl.
  - by destruct (String.eqb_spec n name).
  - destruct (String.eqb_spec name m) as [->|Hm]; simpl.
    + by destruct (String.eqb_spec n m).
    + by rewrite IH.
Qed.

Lemma set_assoc_fresh name a l : name ∉ l.*1 -> set_assoc name a l = l ++ [(name, a)].
Proof.
  induction l as [|[m b] l IH]; simpl; [done|].
  rewrite not_elem_of_cons. intros [Hm Hl].
  destruct (String.eqb_spec name m); [done|]. by rewrite IH.
Qed.

Lemma set_assoc_present name a l : name ∈ l.*1 -> (set_assoc name a l).*1 = l.*1.
Proof.
  induction l as [|[m b] l IH]; simpl; [by intros ?%elem_of_nil|].
  destruct (String.eqb_spec name m) as [->|Hm]; simpl; [done|].
  rewrite elem_of_cons. intros [?|Hl]; [done|]. f_equal. by apply IH.
Qed.

Lemma set_assoc_names_incl name a l n : n ∈ l.*1 -> n ∈ (set_assoc name a l).*1.
Proof.
  destruct (decide (name ∈ l.*1)) as [Hin|Hin].
  - by rewrite set_assoc_present.
  - rewrite set_assoc_fresh, fmap_app by done. intros ?. apply elem_of_app. by left.
Qed.

Lemma assoc_filter_keep (P : string * A -> Prop) `{!forall p, Decision (P p)} name l :
  (forall a, P (name, a)) -> assoc name (filter P l) = assoc name l.
Proof.
  intros HP. induction l as [|[m b] l IH]; [done|].
  rewrite filter_cons. destruct (decide (P (m, b))) as [Hm|Hm]; simpl.
  - by rewrite IH.
  - destruct (String.eqb_spec name m) as [->|]; [by destruct Hm|]. by rewrite IH.
Qed.

Lemma filter_names (P : string * A -> Prop) (Q : string -> Prop)
    `{!forall p, Decision (P p)} `{!forall n, Decision (Q n)} l :
  (forall p, P p <-> Q p.1) -> (filter P l).*1 = filter Q l.*1.
Proof.
  intros HPQ. induction l as [|[m b] l IH]; [done|].
  rewrite filter_cons, fmap_cons, filter_cons. cbn [fst].
  destruct (decide (P (m, b))) as [HP|HP], (decide (Q m)) as [HQ|HQ].
  - rewrite fmap_cons. by rewrite IH.
  - apply HPQ in HP. done.
  - destruct HP. by apply HPQ.
  - done.
Qed.

End Columns.

Lemma has_column_true name t : has_column name t = true <-> name ∈ column_names t.
Proof. unfold has_column. by rewrite bool_decide_eq_true. Qed.

(** ** The merge step *)

Section Merge.

Implicit Types (t : DataFrame) (data : list (string * Series)).

Lemma combine_mro_both t f v :
  assoc MRO_FIXED (df_columns t) = Some f ->
  assoc MRO_VARIABLE (df_columns t) = Some v ->
  combine_mro t = Ok (combined t f v).
Proof.
  intros Hf Hv. unfold combine_mro.
  assert (MRO_FIXED ∈ column_names t) as Hfin by (apply assoc_is_Some; eauto).
  assert (MRO_VARIABLE ∈ column_names t) as Hvin by (apply assoc_is_Some; eauto).
  rewrite (proj2 (has_column_true _ _) Hfin), (proj2 (has_column_true _ _) Hvin).
  simpl. unfold mean_axis1. simpl. rewrite Hf, Hv. simpl.
  unfold drop_columns, set_column, column_names. simpl.
  rewrite filter_cons_False; [|intros H; apply H; by apply set_assoc_names_incl].
  rewrite filter_cons_False; [|intros H; apply H; by apply set_assoc_names_incl].
  done.
Qed.

Lemma combine_mro_not_both t :
  ~ (MRO_FIXED ∈ column_names t /\ MRO_VARIABLE ∈ column_names t) ->
  combine_mro t = Ok t.
Proof.
  intros Hnot. unfold combine_mro.
  destruct (has_column MRO_FIXED t) eqn:Hf; [|done].
  destruct (has_column MRO_VARIABLE t) eqn:Hv; [|done].
  exfalso. apply Hnot. by rewrite <- !has_column_true.
Qed.

(** [combine_mro] never raises. *)
Lemma combine_mro_total t : exists t', combine_mro t = Ok t'.
Proof.
  destruct (assoc MRO_FIXED (df_columns t)) as [f|] eqn:Hf;
    [destruct (assoc MRO_VARIABLE (df_columns t)) as [v|] eqn:Hv|].
  - eexists. by apply combine_mro_both.
  - exists t. apply combine_mro_not_both. intros [_ H].
    by apply assoc_None in Hv.
  - exists t. apply combine_mro_not_both. intros [H _].
    by apply assoc_None in Hf.
Qed.

End Merge.

Section MergeFacts.

Implicit Types (t : DataFrame) (data : list (string * Series)).

Lemma length_row_means n cols : length (row_means n cols) = n.
Proof. unfold row_means. by rewrite length_fmap, length_seq. Qed.

Lemma lookup_row_means n cols i :
  (i < n)%nat ->
  row_means n cols !! i = Some (nanmean (omap (fun c : list value => c !! i) cols)).
Proof.
  intros Hi. unfold row_means. by rewrite list_lookup_fmap, lookup_seq_lt.
Qed.

Lemma mro_not_part : "MRO" ∉ [MRO_FIXED; MRO_VARIABLE].
Proof. rewrite !not_elem_of_cons. repeat split; [done..|apply not_elem_of_nil]. Qed.

Lemma combined_index t f v : df_index (combined t f v) = df_index t.
Proof. done. Qed.

Lemma combined_mro t f v :
  assoc "MRO" (df_columns (combined t f v))
  = Some (row_means (length (df_index t)) [f; v]).
Proof.
  unfold combined. simpl.
  rewrite assoc_filter_keep by (intros ?; apply mro_not_part).
  apply assoc_set_assoc_eq.
Qed.

Lemma combined_other t f v name :
  name ∉ [MRO_FIXED; MRO_VARIABLE] -> name <> "MRO" ->
  assoc name (df_columns (combined t f v)) = assoc name (df_columns t).
Proof.
  intros Hpart Hmro. unfold combined. simpl.
  rewrite assoc_filter_keep by done.
  by apply assoc_set_assoc_ne.
Qed.

Lemma combined_names t f v :
  column_names (combined t f v)
  = filter (fun n => n ∉ [MRO_FIXED; MRO_VARIABLE])
      (set_assoc "MRO" (row_means (length (df_index t)) [f; v]) (df_columns t)).*1.
Proof.
  unfold column_names, combined. simpl.
  by apply filter_names.
Qed.

Lemma combined_no_part t f v name :
  name ∈ [MRO_FIXED; MRO_VARIABLE] -> name ∉ column_names (combined t f v).
Proof.
  intros Hpart. rewrite combined_names. intros [Hn _]%list_elem_of_filter. done.
Qed.

Lemma combined_has_mro t f v : "MRO" ∈ column_names (combined t f v).
Proof. apply assoc_is_Some. rewrite combined_mro. eauto. Qed.

Lemma set_assoc_Forall {A} (P : string * A -> Prop) name a (l : list (string * A)) :
  (forall n, P (n, a)) -> Forall P l -> Forall P (set_assoc name a l).
Proof.
  intros Ha. induction 1 as [|[n b] l Hb Hl IH]; simpl.
  - by constructor.
  - destruct (String.eqb name n); constructor; auto.
Qed.

Lemma combined_aligned t f v : aligned t -> aligned (combined t f v).
Proof.
  unfold aligned, combined. simpl. intros Hal.
  apply Forall_forall. intros p [_ Hp]%list_elem_of_filter. revert p Hp.
  apply Forall_forall, set_assoc_Forall; [|done].
  intros ?. simpl. apply length_row_means.
Qed.

(** The observations of a joined column, row by row. *)
Lemma DataFrame_of_dict_cell data name s i d :
  assoc name data = Some s ->
  df_index (DataFrame_of_dict data) !! i = Some d ->
  cell (DataFrame_of_dict data) name i = Some (default None (series_at d s)).
Proof.
  intros Hs Hd. unfold cell, DataFrame_of_dict in *. simpl in *.
  rewrite assoc_fmap, Hs. simpl. unfold reindex.
  by rewrite list_lookup_fmap, Hd.
Qed.

Lemma DataFrame_of_dict_column data name s :
  assoc name data = Some s ->
  assoc name (df_columns (DataFrame_of_dict data))
  = Some (reindex (df_index (DataFrame_of_dict data)) s).
Proof. intros Hs. unfold DataFrame_of_dict. simpl. by rewrite assoc_fmap, Hs. Qed.

Lemma merge_both data sf sv :
  assoc MRO_FIXED data = Some sf -> assoc MRO_VARIABLE data = Some sv ->
  merge data = Ok (combined (DataFrame_of_dict data)
                     (reindex (df_index (DataFrame_of_dict data)) sf)
                     (reindex (df_index (DataFrame_of_dict data)) sv)).
Proof.
  intros Hf Hv. unfold merge.
  apply combine_mro_both; by apply DataFrame_of_dict_column.
Qed.

Lemma merge_not_both data :
  ~ (MRO_FIXED ∈ data.*1 /\ MRO_VARIABLE ∈ data.*1) ->
  merge data = Ok (DataFrame_of_dict data).
Proof.
  intros H. apply combine_mro_not_both. by rewrite DataFrame_of_dict_names.
Qed.

(** The mean of one row of the two sub-series. *)
Lemma nanmean_one_l q : nanmean [Some q; None] = Some q.
Proof.
  unfold nanmean, Qsum. simpl. f_equal. destruct q as [n d].
  unfold Qdiv, Qmult, Qplus, Qinv. simpl.
  by rewrite !Z.mul_1_r, Pos.mul_1_r.
Qed.

Lemma nanmean_one_r q : nanmean [None; Some q] = Some q.
Proof. apply nanmean_one_l. Qed.

Lemma nanmean_two p q :
  exists m, nanmean [Some p; Some q] = Some m /\ (m == (p + q) / 2)%Q.
Proof.
  eexists. split; [reflexivity|]. unfold Qsum. simpl.
  by rewrite Qplus_0_l.
Qed.

Lemma nanmean_pair_None a b : nanmean [a; b] = None <-> a = None /\ b = None.
Proof. destruct a, b; unfold nanmean; simpl; split; try done; by intros []. Qed.

Lemma combined_join_cell data sf sv i d :
  df_index (DataFrame_of_dict data) !! i = Some d ->
  cell (combined (DataFrame_of_dict data)
          (reindex (df_index (DataFrame_of_dict data)) sf)
          (reindex (df_index (DataFrame_of_dict data)) sv)) "MRO" i
  = Some (nanmean [default None (series_at d sf); default None (series_at d sv)]).
Proof.
  intros Hd. unfold cell. rewrite combined_mro.
  change (row_means (length (df_index (DataFrame_of_dict data)))
            [reindex (df_index (DataFrame_of_dict data)) sf;
             reindex (df_index (DataFrame_of_dict data)) sv] !! i = 
          Some (nanmean [default None (series_at d sf); default None (series_at d sv)])).
  rewrite lookup_row_means by (by eapply lookup_lt_Some).
  unfold reindex. cbn [omap list_omap]. rewrite !list_lookup_fmap, Hd. done.
Qed.

End MergeFacts.

(** ** Fetching *)

Section Fetch.

Context (env : Env) (start : string).

Lemma M_bind_unfold {A B} (c : M A) (k : A -> M B) w :
  (c ≫= k) w = match c w with
               | (Ok a, w') => k a w'
               | (Raise e, w') => (Raise e, w')
               end.
Proof. done. Qed.

(** One turn of the loop: the series is added, or one line is printed. *)
Lemma fetch_one_run data item w :
  fetch_one env start data item w =
  match fetch_result env start item.2 with
  | Ok s => (Ok (set_assoc item.1 s data), calls_add w [(item.2, start)])
  | Raise e =>
      (Ok data,
       stdout_add (calls_add w [(item.2, start)])
         ["Error fetching " +:+ item.1 +:+ ": " +:+ exn_msg e])
  end.
Proof.
  destruct item as [rate_name series_key]. simpl.
  unfold fetch_one, try_except, fetch_result.
  rewrite M_bind_unfold. unfold get_series at 1.
  destruct (ecbdata_get_series env series_key start) as [df|e]; simpl; [|done].
  rewrite M_bind_unfold. unfold lift at 1.
  by destruct (obs_series df).
Qed.

Lemma for_each_fetch items : forall data w,
  NoDup (data.*1 ++ items.*1) ->
  for_each (fetch_one env start) data items w =
  (Ok (data ++ omap (fun item : string * string =>
                       match fetch_result env start item.2 with
                       | Ok s => Some (item.1, s)
                       | Raise _ => None
                       end) items),
   mkWorld (w_fs w)
     (w_stdout w ++ omap (fun item : string * string =>
                            match fetch_result env start item.2 with
                            | Ok _ => None
                            | Raise e =>
                                Some ("Error fetching " +:+ item.1 +:+ ": " +:+ exn_msg e)
                            end) items)
     (w_calls w ++ ((fun item : string * string => (item.2, start)) <$> items))).
Proof.
  induction items as [|item items IH]; intros data w Hnd.
  - simpl. rewrite !app_nil_r. by destruct w.
  - simpl for_each. rewrite M_bind_unfold, fetch_one_run.
    rewrite fmap_cons in Hnd.
    apply NoDup_app in Hnd as (Hd & Hfresh & [Hi Hitems]%NoDup_cons).
    destruct (fetch_result env start item.2) as [s|e] eqn:Hr.
    + rewrite IH.
      * simpl. rewrite Hr. rewrite set_assoc_fresh.
        -- by rewrite <- !app_assoc.
        -- intros Hin. apply (Hfresh _ Hin). apply list_elem_of_here.
      * rewrite set_assoc_fresh, fmap_app, <- app_assoc.
        -- simpl. apply NoDup_app. split_and!; [done| |by constructor].
           intros n Hn. by apply Hfresh.
        -- intros Hin. apply (Hfresh _ Hin). apply list_elem_of_here.
    + rewrite IH.
      * simpl. rewrite Hr. by rewrite <- !app_assoc.
      * apply NoDup_app. split_and!; [done| |done].
        intros n Hn Hin. apply (Hfresh _ Hn). by apply list_elem_of_further.
Qed.

Lemma SERIES_KEYS_NoDup : NoDup SERIES_KEYS.*1.
Proof. apply (bool_decide_unpack _). by vm_compute. Qed.

(** The loop never raises: it calls the API once per configured series,
    keeps the series that could be fetched and prints one line for each of
    the others. *)
Lemma fetch_all_run w :
  fetch_all env start w =
  (Ok (fetched_series env start),
   mkWorld (w_fs w) (w_stdout w ++ fetch_errors env start)
     (w_calls w ++ ((fun item : string * string => (item.2, start)) <$> SERIES_KEYS))).
Proof.
  unfold fetch_all. rewrite for_each_fetch; [done|].
  apply SERIES_KEYS_NoDup.
Qed.

Lemma fetched_series_names : (fetched_series env start).*1 ⊆ SERIES_KEYS.*1.
Proof.
  unfold fetched_series. generalize SERIES_KEYS. intros items n Hn.
  apply list_elem_of_fmap in Hn as ([n' s] & -> & Hin).
  apply list_elem_of_omap in Hin as (item & Hitem & Heq).
  destruct (fetch_result env start item.2); [|done].
  injection Heq as <- <-. simpl. by apply (list_elem_of_fmap_2 fst).
Qed.

Lemma fetched_series_no_mro : "MRO" ∉ (fetched_series env start).*1.
Proof.
  intros H%fetched_series_names. revert H.
  apply (bool_decide_unpack _). by vm_compute.
Qed.

Lemma fetch_ecb_rates_run w :
  fetch_ecb_rates env start w =
  (merge (fetched_series env start),
   mkWorld (w_fs w) (w_stdout w ++ fetch_errors env start)
     (w_calls w ++ ((fun item : string * string => (item.2, start)) <$> SERIES_KEYS))).
Proof.
  unfold fetch_ecb_rates. by rewrite M_bind_unfold, fetch_all_run.
Qed.

End Fetch.

(** ** What the merge step guarantees *)

Section MergeGuarantees.

Implicit Types (t : DataFrame) (data : list (string * Series)).

Lemma not_part_iff name :
  name ∉ [MRO_FIXED; MRO_VARIABLE] <-> name <> MRO_FIXED /\ name <> MRO_VARIABLE.
Proof.
  rewrite !not_elem_of_cons. split.
  - by intros (? & ? & _).
  - intros [? ?]. split_and!; [done..|apply not_elem_of_nil].
Qed.

Lemma merge_cases data :
  (exists sf sv, assoc MRO_FIXED data = Some sf /\ assoc MRO_VARIABLE data = Some sv)
  \/ ~ (MRO_FIXED ∈ data.*1 /\ MRO_VARIABLE ∈ data.*1).
Proof.
  destruct (assoc MRO_FIXED data) as [sf|] eqn:Hf;
    [destruct (assoc MRO_VARIABLE data) as [sv|] eqn:Hv|].
  - left. eauto.
  - right. intros [_ H]. by apply assoc_None in Hv.
  - right. intros [H _]. by apply assoc_None in Hf.
Qed.

Lemma merge_result_wf data t :
  merge data = Ok t ->
  StronglySorted Timestamp_lt (df_index t) /\ aligned t
  /\ (df_columns t = [] -> df_index t = [])
  /\ ~ (MRO_FIXED ∈ column_names t /\ MRO_VARIABLE ∈ column_names t).
Proof.
  destruct (merge_cases data) as [(sf & sv & Hf & Hv)|Hnot].
  - rewrite (merge_both data sf sv Hf Hv).
    set (j := DataFrame_of_dict data).
    set (c := combined j _ _). intros Heq.
    assert (t = c) as -> by congruence. clear Heq.
    split_and!.
    + apply union_indexes_sorted.
    + apply combined_aligned, DataFrame_of_dict_aligned.
    + intros Hnil. pose proof (combined_has_mro j
        (reindex (df_index j) sf) (reindex (df_index j) sv)) as Hin.
      fold c in Hin. unfold column_names in Hin.
      rewrite Hnil in Hin. by apply elem_of_nil in Hin.
    + intros [H _]. revert H. apply combined_no_part, list_elem_of_here.
  - rewrite (merge_not_both data Hnot). intros Heq.
    assert (t = DataFrame_of_dict data) as -> by congruence. clear Heq.
    split_and!.
    + apply union_indexes_sorted.
    + apply DataFrame_of_dict_aligned.
    + unfold DataFrame_of_dict. simpl. by intros ->%fmap_nil_inv.
    + by rewrite DataFrame_of_dict_names.
Qed.

(** C2: when both MRO sub-series are columns of the joined table, merge
    returns a table with an "MRO" column holding, for every date, the mean
    of the two sub-series at that date, and with neither sub-series column;
    for the inputs {2024-01-01: 4.50} and {2024-01-01: 4.75} the table has
    the single column "MRO" with the value 4.625 at 2024-01-01. *)
Theorem merge_means_both_mro :
  (forall data sf sv,
     assoc MRO_FIXED data = Some sf -> assoc MRO_VARIABLE data = Some sv ->
     exists t, merge data = Ok t
       /\ (MRO_FIXED ∉ column_names t) /\ (MRO_VARIABLE ∉ column_names t)
       /\ "MRO" ∈ column_names t
       /\ df_index t = df_index (DataFrame_of_dict data)
       /\ forall i d, df_index t !! i = Some d ->
            let a := default None (series_at d sf) in
            let b := default None (series_at d sv) in
            cell (DataFrame_of_dict data) MRO_FIXED i = Some a
            /\ cell (DataFrame_of_dict data) MRO_VARIABLE i = Some b
            /\ cell t "MRO" i = Some (nanmean [a; b])
            /\ forall p q, a = Some p -> b = Some q ->
                 exists m, cell t "MRO" i = Some (Some m) /\ (m == (p + q) / 2)%Q)
  /\ exists m,
       merge Sample.mro_pair = Ok (mkDataFrame [Sample.d0101] [("MRO", [Some m])])
       /\ (m == 4.625)%Q.
Proof.
  split.
  - intros data sf sv Hf Hv. eexists. split; [by apply merge_both|].
    split_and!.
    + apply combined_no_part, list_elem_of_here.
    + apply combined_no_part, list_elem_of_further, list_elem_of_here.
    + apply combined_has_mro.
    + done.
    + intros i d Hd a b. rewrite combined_index in Hd.
      pose proof (DataFrame_of_dict_cell data _ _ _ _ Hf Hd) as Ha.
      pose proof (DataFrame_of_dict_cell data _ _ _ _ Hv Hd) as Hb.
      pose proof (combined_join_cell data sf sv i d Hd) as Hm.
      split_and!; [done..|].
      intros p q Hp Hq. unfold a, b in *. rewrite Hm, Hp, Hq.
      destruct (nanmean_two p q) as (m & -> & Hmq). eauto.
  - eexists. split; [by vm_compute|]. by vm_compute.
Qed.

Lemma merge_means_both_mro_witness :
  exists t, merge Sample.mro_pair = Ok t /\ (MRO_FIXED ∉ column_names t).
Proof.
  destruct (proj1 merge_means_both_mro Sample.mro_pair _ _ eq_refl eq_refl)
    as (t & Ht & Hf & _).
  exists t. by split.
Defined.

(** C3: for every date of the merged table, the derived MRO value is the
    mean of the values that are not missing among the two sub-series at that
    date: the single value when exactly one is missing, and missing exactly
    when both are. *)
Theorem mro_is_mean_of_available data sf sv t i d :
  assoc MRO_FIXED data = Some sf -> assoc MRO_VARIABLE data = Some sv ->
  merge data = Ok t -> df_index t !! i = Some d ->
  let a := default None (series_at d sf) in
  let b := default None (series_at d sv) in
  cell t "MRO" i = Some (nanmean [a; b])
  /\ (forall p, a = Some p -> b = None -> cell t "MRO" i = Some (Some p))
  /\ (forall q, a = None -> b = Some q -> cell t "MRO" i = Some (Some q))
  /\ (forall p q, a = Some p -> b = Some q ->
        exists m, cell t "MRO" i = Some (Some m) /\ (m == (p + q) / 2)%Q)
  /\ (cell t "MRO" i = Some None <-> a = None /\ b = None).
Proof.
  intros Hf Hv Hm Hd a b.
  rewrite (merge_both data sf sv Hf Hv) in Hm.
  match type of Hm with Ok ?c = _ => assert (t = c) as -> by congruence end.
  clear Hm. rewrite combined_index in Hd.
  rewrite (combined_join_cell data sf sv i d Hd).
  unfold a, b. clear a b. split_and!.
  - done.
  - intros p -> ->. by rewrite nanmean_one_l.
  - intros q -> ->. by rewrite nanmean_one_r.
  - intros p q -> ->. destruct (nanmean_two p q) as (m & -> & Hmq). eauto.
  - rewrite <- nanmean_pair_None. split; [by intros [= ?]|intros H; f_equal; exact H].
Qed.

Lemma mro_is_mean_of_available_witness :
  cell (mkDataFrame [Sample.d0101] [("MRO", [Some ((0 + 4.50 + 4.75) / 2)%Q])]) "MRO" 0
  = Some (nanmean [Some 4.50%Q; Some 4.75%Q]).
Proof.
  exact (proj1 (mro_is_mean_of_available Sample.mro_pair _ _ _ 0%nat Sample.d0101
                  eq_refl eq_refl eq_refl eq_refl)).
Defined.

(** C4: when at most one of the two MRO sub-series is a column, merge
    returns the joined table as it is: no "MRO" column is derived, and the
    sub-series that is there keeps its own name and values.  This holds for
    every dict without an "MRO" key, and so for every dict the fetch loop
    builds. *)
Theorem no_mro_without_both :
  (forall data,
     ~ (MRO_FIXED ∈ data.*1 /\ MRO_VARIABLE ∈ data.*1) ->
     merge data = Ok (DataFrame_of_dict data)
     /\ column_names (DataFrame_of_dict data) = data.*1
     /\ ("MRO" ∉ data.*1 -> "MRO" ∉ column_names (DataFrame_of_dict data)))
  /\ (forall env start w,
        let data := fetched_series env start in
        ~ (MRO_FIXED ∈ data.*1 /\ MRO_VARIABLE ∈ data.*1) ->
        (fetch_ecb_rates env start w).1 = Ok (DataFrame_of_dict data)
        /\ ("MRO" ∉ column_names (DataFrame_of_dict data))
        /\ forall part s,
             part ∈ [MRO_FIXED; MRO_VARIABLE] -> assoc part data = Some s ->
             assoc part (df_columns (DataFrame_of_dict data))
             = Some (reindex (df_index (DataFrame_of_dict data)) s)).
Proof.
  split.
  - intros data Hnot. split_and!.
    + by apply merge_not_both.
    + apply DataFrame_of_dict_names.
    + by rewrite DataFrame_of_dict_names.
  - intros env start w data Hnot. split_and!.
    + rewrite fetch_ecb_rates_run. simpl. by apply merge_not_both.
    + rewrite DataFrame_of_dict_names. apply fetched_series_no_mro.
    + intros part s _ Hs. by apply DataFrame_of_dict_column.
Qed.

Lemma no_mro_without_both_witness :
  merge [(MRO_FIXED, [(Sample.d0101, Some 4.50%Q)])]
  = Ok (DataFrame_of_dict [(MRO_FIXED, [(Sample.d0101, Some 4.50%Q)])]).
Proof.
  apply (proj1 no_mro_without_both [(MRO_FIXED, [(Sample.d0101, Some 4.50%Q)])]).
  intros [_ H]. revert H. apply (bool_decide_unpack _). by vm_compute.
Defined.

(** C7: merging the columns of an already merged table gives the same
    table: same columns, same dates, same values. *)
Theorem merge_idempotent data :
  exists t, merge data = Ok t /\ merge (frame_series t) = Ok t.
Proof.
  destruct (combine_mro_total (DataFrame_of_dict data)) as [t Ht].
  exists t. split; [done|].
  destruct (merge_result_wf data t Ht) as (Hs & Hal & Hnil & Hnot).
  unfold merge. rewrite DataFrame_of_frame_series by done.
  by apply combine_mro_not_both.
Qed.

Lemma merge_frame data t :
  merge data = Ok t ->
  df_index t = df_index (DataFrame_of_dict data)
  /\ forall name,
       name <> MRO_FIXED -> name <> MRO_VARIABLE -> name <> "MRO" ->
       assoc name (df_columns t) = assoc name (df_columns (DataFrame_of_dict data)).
Proof.
  destruct (merge_cases data) as [(sf & sv & Hf & Hv)|Hnot].
  - rewrite (merge_both data sf sv Hf Hv). intros Heq.
    match type of Heq with Ok ?c = _ => assert (t = c) as -> by congruence end.
    split; [done|]. intros name Hnf Hnv Hnm.
    apply combined_other; [by apply not_part_iff|done].
  - rewrite (merge_not_both data Hnot). intros Heq.
    assert (t = DataFrame_of_dict data) as -> by congruence. done.
Qed.

(** C10: combining the MRO sub-series leaves the index of the joined table
    as it is, and every column other than the two sub-series keeps exactly
    its joined values. *)
Theorem combine_mro_frame :
  (forall data t,
     merge data = Ok t ->
     df_index t = df_index (DataFrame_of_dict data)
     /\ forall name,
          name <> MRO_FIXED -> name <> MRO_VARIABLE -> name <> "MRO" ->
          assoc name (df_columns t) = assoc name (df_columns (DataFrame_of_dict data)))
  /\ (forall env start w t,
        (fetch_ecb_rates env start w).1 = Ok t ->
        let joined := DataFrame_of_dict (fetched_series env start) in
        df_index t = df_index joined
        /\ forall name c,
             name <> MRO_FIXED -> name <> MRO_VARIABLE ->
             assoc name (df_columns joined) = Some c ->
             assoc name (df_columns t) = Some c).
Proof.
  split; [apply merge_frame|].
  intros env start w t Ht joined. rewrite fetch_ecb_rates_run in Ht. simpl in Ht.
  destruct (merge_frame _ _ Ht) as [Hidx Hcols]. split; [done|].
  intros name c Hnf Hnv Hc. rewrite Hcols; [done..|].
  intros ->. apply (fetched_series_no_mro env start).
  rewrite <- DataFrame_of_dict_names. apply assoc_is_Some. by exists c.
Qed.

Lemma combine_mro_frame_witness :
  assoc "DFR" (df_columns Sample.merged_three)
  = assoc "DFR" (df_columns (DataFrame_of_dict Sample.three_series)).
Proof.
  refine (proj2 (proj1 combine_mro_frame Sample.three_series Sample.merged_three _)
            "DFR" _ _ _); [by vm_compute|discriminate..].
Defined.

End MergeGuarantees.
(** ** The file system *)

Section FileSystem.

Implicit Types (root n : node) (p q : path) (c : string).

Lemma resolve_app root p q :
  resolve root (p ++ q) = resolve root p ≫= fun n => resolve n q.
Proof.
  revert root. induction p as [|c p IH]; intros root; simpl; [done|].
  destruct root as [|m]; [done|]. destruct (m !! c) as [n'|]; simpl; [apply IH|done].
Qed.

Lemma resolve_empty_dir p : p <> [] -> resolve (Dir ∅) p = None.
Proof. destruct p as [|c p]; [done|]. intros _. simpl. by rewrite lookup_empty. Qed.

Lemma no_file_on_root root p : no_file_on root p -> exists m, root = Dir m.
Proof.
  intros H. destruct root as [s|m]; [|by eexists].
  destruct (H [] (prefix_nil p) s). done.
Qed.

Lemma no_file_on_cons m c n' p :
  m !! c = Some n' -> no_file_on (Dir m) (c :: p) -> no_file_on n' p.
Proof.
  intros Hc H q Hq s Hs. apply (H (c :: q) (prefix_cons c _ _ Hq) s).
  simpl. by rewrite Hc.
Qed.

Lemma no_file_on_empty_dir p : no_file_on (Dir ∅) p.
Proof.
  intros [|c q] _ s; simpl; [done|]. by rewrite lookup_empty.
Qed.

Lemma no_file_on_prefix root p q : q `prefix_of` p -> no_file_on root p -> no_file_on root q.
Proof. intros Hq H q' Hq'. apply H. by etrans. Qed.

(** Directories that are there are kept. *)
Lemma ensure_dirs_present root p :
  is_dir_node (resolve root p) = true -> ensure_dirs root p = root.
Proof.
  revert root. induction p as [|c p IH]; intros root; simpl; [done|].
  destruct root as [|m]; [done|]. destruct (m !! c) as [n'|] eqn:Hc; simpl; [|done].
  intros Hp. rewrite IH by done. by rewrite insert_id.
Qed.

(** Afterwards every directory of the path is there. *)
Lemma ensure_dirs_is_dir root p q :
  no_file_on root p -> q `prefix_of` p ->
  is_dir_node (resolve (ensure_dirs root p) q) = true.
Proof.
  revert root q. induction p as [|c p IH]; intros root q Hno Hq.
  - apply prefix_nil_inv in Hq as ->. simpl.
    by destruct (no_file_on_root _ _ Hno) as [m ->].
  - destruct (no_file_on_root _ _ Hno) as [m ->]. simpl.
    destruct q as [|c' q]; [done|].
    apply prefix_cons_inv_1 in Hq as Hc. subst c'.
    apply prefix_cons_inv_2 in Hq. simpl. rewrite lookup_insert_eq. simpl.
    apply IH; [|done].
    destruct (m !! c) as [n'|] eqn:Hc; simpl.
    + by eapply no_file_on_cons.
    + apply no_file_on_empty_dir.
Qed.

(** A directory that was not there is created empty. *)
Lemma ensure_dirs_new root p :
  resolve root p = None -> no_file_on root p ->
  resolve (ensure_dirs root p) p = Some (Dir ∅).
Proof.
  revert root. induction p as [|c p IH]; intros root Hnone Hno; [done|].
  destruct (no_file_on_root _ _ Hno) as [m ->]. simpl in *.
  rewrite lookup_insert_eq. simpl.
  destruct (m !! c) as [n'|] eqn:Hc; simpl in *.
  - apply IH; [done|]. by eapply no_file_on_cons.
  - destruct p as [|c' p]; [done|].
    apply IH; [|apply no_file_on_empty_dir]. by apply resolve_empty_dir.
Qed.

Lemma update_cons_cons m c c' p x :
  update (Dir m) (c :: c' :: p) x =
  match m !! c with
  | Some n' => Dir (<[c := update n' (c' :: p) x]> m)
  | None => Dir m
  end.
Proof. done. Qed.

(** Making the last directory after its parents is making them all. *)
Lemma update_ensure_dirs root p c :
  resolve root (p ++ [c]) = None ->
  update (ensure_dirs root p) (p ++ [c]) (Dir ∅) = ensure_dirs root (p ++ [c]).
Proof.
  revert root. induction p as [|c' p IH]; intros root Hnone.
  - destruct root as [|m]; [done|]. simpl in *.
    destruct (m !! c); [done|]. done.
  - destruct root as [|m]; [done|].
    change ((c' :: p) ++ [c]) with (c' :: (p ++ [c])) in *.
    simpl ensure_dirs.
    assert (exists c'' p', p ++ [c] = c'' :: p') as (c'' & p' & Heq).
    { destruct p; simpl; eauto. }
    rewrite Heq at 1. rewrite update_cons_cons, lookup_insert_eq, <- Heq.
    rewrite insert_insert_eq. f_equal. f_equal.
    apply IH. simpl in Hnone.
    destruct (m !! c') as [n'|]; simpl in *; [done|].
    apply resolve_empty_dir. by destruct p.
Qed.

(** [os.makedirs] makes every missing directory of the path, provided no
    regular file is in the way. *)
Lemma makedirs_rev_ensure rname : forall root,
  rname <> [] -> no_file_on root (rev rname) ->
  makedirs_rev rname root = Ok (ensure_dirs root (rev rname)).
Proof.
  induction rname as [|tail rhead IH]; intros root Hne Hno; [done|].
  set (head := rev rhead).
  assert (rev (tail :: rhead) = head ++ [tail]) as Hname by done.
  assert (no_file_on root head) as Hnohead.
  { eapply no_file_on_prefix; [|done]. rewrite Hname. by apply prefix_app_r. }
  assert (forall r, is_dir_node (resolve r head) = true ->
            (resolve r (head ++ [tail]) = None \/
             is_dir_node (resolve r (head ++ [tail])) = true) ->
            match os_mkdir (head ++ [tail]) r with
            | Ok r' => Ok r'
            | Raise e => if os_path_isdir r (head ++ [tail]) then Ok r else Raise e
            end = Ok (if is_dir_node (resolve r (head ++ [tail])) then r
                      else update r (head ++ [tail]) (Dir ∅))) as Hmk.
  { intros r Hhead Htail. unfold os_mkdir, os_path_isdir.
    rewrite bool_decide_eq_false_2 by (by destruct head).
    rewrite removelast_last, Hhead.
    destruct Htail as [Hnone|Hdir].
    - rewrite Hnone. by rewrite bool_decide_eq_false_2 by (by intros []).
    - rewrite Hdir. destruct (resolve r (head ++ [tail])); [|done].
      by rewrite bool_decide_eq_true_2 by (by eexists). }
  cbn [makedirs_rev]. fold head. rewrite Hname.
  assert (forall r, no_file_on r (head ++ [tail]) ->
            resolve r (head ++ [tail]) = None \/
            is_dir_node (resolve r (head ++ [tail])) = true) as Hcases.
  { intros r Hr. destruct (resolve r (head ++ [tail])) as [[s|m]|] eqn:E; auto.
    by destruct (Hr (head ++ [tail]) (reflexivity _) s). }
  rewrite Hname in Hno.
  destruct (decide (head = [])) as [Hnil|Hnil].
  - rewrite bool_decide_eq_true_2 by done. simpl.
    destruct (no_file_on_root _ _ Hno) as [m ->].
    change (mbind ?f (Ok ?r)) with (f r). cbv beta.
    rewrite Hmk; [|by rewrite Hnil|by apply Hcases].
    f_equal. destruct (is_dir_node (resolve (Dir m) (head ++ [tail]))) eqn:Hd.
    + symmetry. by apply ensure_dirs_present.
    + rewrite <- update_ensure_dirs.
      * rewrite (ensure_dirs_present _ head); [done|by rewrite Hnil].
      * destruct (Hcases _ Hno); congruence.
  - rewrite bool_decide_eq_false_2 by done. simpl.
    unfold os_path_exists. rewrite (bool_decide_eq_false_2 (head = [])) by done.
    destruct (resolve root head) as [nh|] eqn:Hres.
    + rewrite bool_decide_eq_true_2 by (by eexists). simpl.
      change (mbind ?f (Ok ?r)) with (f r). cbv beta.
      assert (is_dir_node (resolve root head) = true) as Hdirh.
      { rewrite Hres. destruct nh as [s|]; [|done].
        by destruct (Hnohead head (reflexivity _) s). }
      rewrite Hmk; [|done|by apply Hcases].
      f_equal. destruct (is_dir_node (resolve root (head ++ [tail]))) eqn:Hd.
      * symmetry. by apply ensure_dirs_present.
      * rewrite <- update_ensure_dirs.
        -- by rewrite (ensure_dirs_present _ head) by done.
        -- destruct (Hcases _ Hno); congruence.
    + rewrite bool_decide_eq_false_2 by (by intros []). simpl.
      rewrite IH; [|by destruct rhead|done].
      change (mbind ?f (Ok ?r)) with (f r). cbv beta.
      fold head.
      assert (resolve (ensure_dirs root head) (head ++ [tail]) = None) as Hnew.
      { rewrite resolve_app, ensure_dirs_new by done. simpl. by rewrite lookup_empty. }
      rewrite Hmk.
      * rewrite Hnew. simpl. f_equal. apply update_ensure_dirs.
        by rewrite resolve_app, Hres.
      * by apply ensure_dirs_is_dir.
      * by left.
Qed.

Lemma os_makedirs_ensure name root :
  name <> [] -> no_file_on root name ->
  os_makedirs name root = Ok (ensure_dirs root name).
Proof.
  intros Hne Hno. unfold os_makedirs.
  rewrite makedirs_rev_ensure; rewrite ?rev_involutive; try done.
  intros H. apply Hne. by rewrite <- (rev_involutive name), H.
Qed.

(** Putting a node below an existing directory. *)
Lemma resolve_update root p c x :
  is_dir_node (resolve root p) = true ->
  resolve (update root (p ++ [c]) x) (p ++ [c]) = Some x.
Proof.
  revert root. induction p as [|c' p IH]; intros root Hdir.
  - destruct root as [|m]; [done|]. simpl. by rewrite lookup_insert_eq.
  - destruct root as [|m]; [done|].
    change ((c' :: p) ++ [c]) with (c' :: (p ++ [c])).
    assert (exists c'' p', p ++ [c] = c'' :: p') as (c'' & p' & Heq).
    { destruct p; simpl; eauto. }
    rewrite Heq at 1. rewrite update_cons_cons, <- Heq.
    simpl in Hdir. destruct (m !! c') as [n'|] eqn:Hc; [|done].
    simpl in *. rewrite lookup_insert_eq. simpl. by apply IH.
Qed.

Lemma update_keeps_dirs root p c x q :
  q `prefix_of` p -> is_dir_node (resolve root p) = true ->
  is_dir_node (resolve root q) = true ->
  is_dir_node (resolve (update root (p ++ [c]) x) q) = true.
Proof.
  revert root q. induction p as [|c' p IH]; intros root q Hq Hp Hdir.
  - apply prefix_nil_inv in Hq as ->. by destruct root.
  - destruct root as [|m]; [done|].
    change ((c' :: p) ++ [c]) with (c' :: (p ++ [c])).
    assert (exists c'' p', p ++ [c] = c'' :: p') as (c'' & p' & Heq).
    { destruct p; simpl; eauto. }
    rewrite Heq at 1. rewrite update_cons_cons, <- Heq.
    simpl in Hp. destruct (m !! c') as [n'|] eqn:Hc; [|done]. simpl in Hp.
    destruct q as [|c0 q]; [done|].
    apply prefix_cons_inv_1 in Hq as Hc0. subst c0.
    apply prefix_cons_inv_2 in Hq.
    simpl in *. rewrite lookup_insert_eq. rewrite Hc in Hdir. simpl in *.
    by apply IH.
Qed.

Lemma write_file_new root p c content :
  is_dir_node (resolve root p) = true ->
  is_dir_node (resolve root (p ++ [c])) = false ->
  write_file (p ++ [c]) content root = Ok (update root (p ++ [c]) (File content)).
Proof.
  intros Hp Hc. unfold write_file.
  rewrite bool_decide_eq_false_2 by (by destruct p).
  by rewrite Hc, removelast_last, Hp.
Qed.


End FileSystem.

(** ** Rendering *)

Section Render.

Context (env : Env).

Lemma rates_summary_no_rows t :
  df_index t = [] ->
  rates_summary env t = Raise (IndexError "single positional indexer is out-of-bounds").
Proof. intros H. unfold rates_summary, iloc_last. by rewrite H. Qed.

Lemma rates_summary_rows t :
  df_index t <> [] -> exists info, rates_summary env t = Ok info.
Proof.
  intros H. unfold rates_summary, iloc_last.
  destruct (df_index t) as [|d idx]; [done|]. simpl. eauto.
Qed.

Lemma create_interactive_plot_run t p w :
  create_interactive_plot env (Some t) p w =
  match rates_summary env t with
  | Raise e => (Raise e, w)
  | Ok info =>
      match os_makedirs (os_path_dirname p) (w_fs w) with
      | Raise e => (Raise e, w)
      | Ok r1 =>
          match write_file p (info +:+ fig_to_html env (build_figure t)) r1 with
          | Raise e => (Raise e, mkWorld r1 (w_stdout w) (w_calls w))
          | Ok r2 =>
              (Ok (Some p),
               mkWorld r2
                 (w_stdout w
                  ++ ["ECB rates visualization has been saved to " +:+ path_str p])
                 (w_calls w))
          end
      end
  end.
Proof.
  unfold create_interactive_plot, mbind, M_bind, mret, M_ret, lift, on_fs, print.
  simpl. destruct (rates_summary env t) as [info|e]; [|done].
  destruct (os_makedirs (os_path_dirname p) (w_fs w)) as [r1|e]; [|done].
  simpl. by destruct (write_file p _ r1).
Qed.


End Render.

(** The chart has one trace for each of the five rates that is a column,
    policy rates first, and none for the others. *)
Lemma build_figure_traces t :
  sc_name <$> fig_data (build_figure t)
  = filter (fun n => n ∈ column_names t) ["MRO"; "DFR"; "MLF"; "€STR"; "EONIA"].
Proof.
  unfold build_figure, add_reference_traces, add_policy_traces, policy_rates,
    reference_rates, column_names.
  cbn [foldl fig_data].
  repeat match goal with
         | |- context [assoc ?n (df_columns t)] =>
             let H := fresh "H" in
             destruct (assoc n (df_columns t)) eqn:H;
             [apply mk_is_Some, assoc_is_Some in H | apply assoc_None in H]
         end;
    rewrite !filter_cons, filter_nil; repeat case_decide; try done.
Qed.




(** An output path without a directory part: [os.path.dirname] is the empty
    string, on which [os.makedirs] raises, so nothing is written. *)
Lemma render_bare_file_name env t f w :
  df_index t <> [] ->
  create_interactive_plot env (Some t) [f] w
  = (Raise (FileNotFoundError []), w).
Proof.
  intros Hrows. rewrite create_interactive_plot_run.
  by destruct (rates_summary_rows env t Hrows) as [info ->].
Qed.

(** C6: rendering a table without rows raises [IndexError] before anything
    is written; this is the table [fetch_ecb_rates] returns when no series
    can be fetched, and [main] then exits with status 1. *)
Theorem render_empty_table_raises :
  (forall env p w,
     create_interactive_plot env (Some Sample.empty_table) p w
     = (Raise (IndexError "single positional indexer is out-of-bounds"), w))
  /\ (fetch_ecb_rates Sample.env_down "1999-01" Sample.world0).1 = Ok Sample.empty_table
  /\ (main Sample.env_down Sample.args0 Sample.world0).1 = Ok 1%Z
  /\ w_fs (main Sample.env_down Sample.args0 Sample.world0).2 = w_fs Sample.world0.
Proof.
  split_and!.
  - intros env p w. rewrite create_interactive_plot_run.
    by rewrite rates_summary_no_rows.
  - by vm_compute.
  - by vm_compute.
  - by vm_compute.
Qed.

(** ** The top level *)

Section Main.

Lemma main_with_run fetch render args w :
  main_with fetch render args w =
  match (rates ← fetch (start_date args); render (Some rates) (output args)) w with
  | (Ok _, w') => (Ok 0%Z, w')
  | (Raise e, w') =>
      (Ok 1%Z, stdout_add w' ["Error generating visualization: " +:+ exn_msg e])
  end.
Proof.
  unfold main_with, try_except, mbind, M_bind, mret, M_ret, print, stdout_add.
  destruct (fetch (start_date args) w) as [[rates|e] w1]; [|done].
  by destruct (render (Some rates) (output args) w1) as [[r|e] w2].
Qed.


End Main.


(** ** Partial failure of the fetch loop *)




(** ** The summary block *)

Section Summary.

Lemma string_app_assoc (a b c : string) : (a +:+ b) +:+ c = a +:+ (b +:+ c).
Proof.
  induction a as [|x a IH]; [done|].
  change (String x ((a +:+ b) +:+ c) = String x (a +:+ b +:+ c)). by rewrite IH.
Qed.

Lemma string_app_nil_r (a : string) : a +:+ EmptyString = a.
Proof.
  induction a as [|x a IH]; [done|].
  change (String x (a +:+ EmptyString) = String x a). by rewrite IH.
Qed.

Lemma contains_here sub post : contains sub (sub +:+ post).
Proof. by exists EmptyString, post. Qed.

Lemma contains_refl sub : contains sub sub.
Proof. exists EmptyString, EmptyString. by rewrite string_app_nil_r. Qed.

Lemma contains_app_r sub a b : contains sub b -> contains sub (a +:+ b).
Proof.
  intros (pre & post & ->). exists (a +:+ pre), post.
  by rewrite string_app_assoc.
Qed.

Lemma contains_app_l sub a b : contains sub a -> contains sub (a +:+ b).
Proof.
  intros (pre & post & ->). exists pre, (post +:+ b).
  by rewrite !string_app_assoc.
Qed.

Lemma starts_with_spec sub s :
  starts_with sub s = true <-> exists post, s = sub +:+ post.
Proof.
  revert s. induction sub as [|a sub IH]; intros s; simpl.
  - split; [by exists s|done].
  - destruct s as [|b s].
    + split; [done|by intros [post ?]].
    + rewrite andb_true_iff, IH, Ascii.eqb_eq. split.
      * intros [-> [post ->]]. by exists post.
      * intros [post [= -> ->]]. eauto.
Qed.

Lemma containsb_spec sub s : containsb sub s = true <-> contains sub s.
Proof.
  split.
  - induction s as [|b s IH]; simpl; rewrite orb_true_iff.
    + intros [H|H]; [|done]. apply starts_with_spec in H as [post ->].
      apply contains_here.
    + intros [H|H].
      * apply starts_with_spec in H as [post ->]. apply contains_here.
      * destruct (IH H) as (pre & post & ->). by exists (String b pre), post.
  - intros (pre & post & ->). induction pre as [|b pre IH].
    + assert (starts_with sub (EmptyString +:+ sub +:+ post) = true) as H
        by (apply starts_with_spec; by exists post).
      destruct (EmptyString +:+ sub +:+ post); simpl in *; by rewrite H.
    + simpl. rewrite IH. apply orb_true_r.
Qed.

Lemma not_contains sub s : containsb sub s = false -> ~ contains sub s.
Proof. intros H Hc%containsb_spec. congruence. Qed.

Lemma iloc_last_assoc t latest rate :
  iloc_last t = Ok latest ->
  assoc rate latest
  = (fun c : list value => default None (c !! pred (length (df_index t))))
      <$> assoc rate (df_columns t).
Proof.
  unfold iloc_last. destruct (length (df_index t)) as [|n]; [done|].
  intros [= <-]. by rewrite assoc_fmap.
Qed.

Lemma iloc_last_names t latest : iloc_last t = Ok latest -> latest.*1 = column_names t.
Proof.
  unfold iloc_last. destruct (length (df_index t)) as [|n]; [done|].
  intros [= <-]. unfold column_names. rewrite <- list_fmap_compose.
  apply list_fmap_ext. by intros ? [].
Qed.

Lemma policy_items_steps latest :
  policy_items latest
  = policy_step latest "MRO" +:+ policy_step latest "DFR" +:+ policy_step latest "MLF".
Proof.
  unfold policy_items, policy_rates, policy_step, policy_entry. simpl.
  repeat match goal with
         | |- context [bool_decide ?P] => destruct (bool_decide P)
         | |- context [default None ?o] => destruct (default None o)
         end; simpl; rewrite ?string_app_nil_r, ?string_app_assoc; try done;
    simpl; rewrite ?string_app_assoc; done.
Qed.

Lemma policy_step_entry t latest rate :
  iloc_last t = Ok latest -> policy_step latest rate = summary_entry t rate.
Proof.
  intros Hl. unfold policy_step, summary_entry, latest_value.
  rewrite (iloc_last_assoc t latest rate Hl), (iloc_last_names t latest Hl).
  destruct (assoc rate (df_columns t)) as [c|] eqn:Hc; simpl.
  - rewrite bool_decide_eq_true_2 by (apply assoc_is_Some; eauto).
    by destruct (c !! pred (length (df_index t))) as [[v|]|].
  - by rewrite bool_decide_eq_false_2 by (by apply assoc_None).
Qed.

(** The summary: the entries of the three policy rates, then those of the
    two reference rates. *)
Lemma rates_summary_entries env t info :
  rates_summary env t = Ok info ->
  info = summary_open
         +:+ summary_entry t "MRO" +:+ summary_entry t "DFR" +:+ summary_entry t "MLF"
         +:+ reference_item "€STR" "as of" (available "€STR" t)
         +:+ reference_item "EONIA" "discontinued on" (available "EONIA" t)
         +:+ summary_close env.
Proof.
  unfold rates_summary. destruct (iloc_last t) as [latest|e] eqn:Hl; [|done].
  change (mbind ?f (Ok latest)) with (f latest). cbv beta. intros [= <-].
  rewrite policy_items_steps, !(policy_step_entry t latest) by done.
  by rewrite !string_app_assoc.
Qed.

End Summary.

(** C5: the summary has one entry for every policy rate that has an
    observation in the last row of the table, and none for a policy rate
    whose last observation is missing; the entry reads
    [<li><strong>RATE:</strong> V%</li>] with V the observation to three
    decimal places.  For the last-row values MRO=4.50, DFR=4.75, MLF=5.00
    the summary holds [<strong>MRO:</strong> 4.500%],
    [<strong>DFR:</strong> 4.750%] and [<strong>MLF:</strong> 5.000%]. *)
Theorem summary_shows_latest_policy_rates :
  (forall env t info,
     rates_summary env t = Ok info ->
     info = summary_open
            +:+ summary_entry t "MRO" +:+ summary_entry t "DFR" +:+ summary_entry t "MLF"
            +:+ reference_item "€STR" "as of" (available "€STR" t)
            +:+ reference_item "EONIA" "discontinued on" (available "EONIA" t)
            +:+ summary_close env
     /\ forall rate v,
          rate ∈ policy_rates -> latest_value t rate = Some (Some v) ->
          contains ("<li><strong>" +:+ rate +:+ ":</strong> " +:+ format_3f v +:+ "%</li>") info)
  /\ (forall env, exists info,
        rates_summary env Sample.policy_table = Ok info
        /\ contains "<strong>MRO:</strong> 4.500%" info
        /\ contains "<strong>DFR:</strong> 4.750%" info
        /\ contains "<strong>MLF:</strong> 5.000%" info).
Proof.
  assert (forall env t info,
            rates_summary env t = Ok info ->
            forall rate v,
              rate ∈ policy_rates -> latest_value t rate = Some (Some v) ->
              contains (policy_entry rate v) info) as Hgen.
  { intros env t info Hinfo rate v Hrate Hv.
    rewrite (rates_summary_entries env t info Hinfo).
    apply contains_app_r.
    assert (summary_entry t rate = policy_entry rate v) as Hentry
      by (unfold summary_entry; by rewrite Hv).
    unfold policy_rates in Hrate.
    rewrite !elem_of_cons in Hrate. destruct Hrate as [->|[->|[->|Hnil]]].
    - rewrite Hentry. apply contains_here.
    - rewrite Hentry. apply contains_app_r, contains_here.
    - rewrite Hentry. apply contains_app_r, contains_app_r, contains_here.
    - by apply elem_of_nil in Hnil. }
  split.
  - intros env t info Hinfo. split; [by apply rates_summary_entries|].
    intros rate v. by apply (Hgen env).
  - intros env.
    destruct (rates_summary_rows env Sample.policy_table) as [info Hinfo]; [done|].
    exists info. split; [done|].
    assert (forall rate v shown,
              rate ∈ policy_rates ->
              latest_value Sample.policy_table rate = Some (Some v) ->
              policy_entry rate v = "<li>" +:+ shown +:+ "</li>" ->
              contains shown info) as Hshown.
    { intros rate v shown Hrate Hv Heq.
      destruct (Hgen env _ info Hinfo rate v Hrate Hv) as (pre & post & ->).
      exists (pre +:+ "<li>"), ("</li>" +:+ post).
      rewrite Heq, !string_app_assoc. reflexivity. }
    split_and!.
    + apply (Hshown "MRO" 4.50%Q); [|done|by vm_compute].
      apply list_elem_of_here.
    + apply (Hshown "DFR" 4.75%Q); [|done|by vm_compute].
      apply list_elem_of_further, list_elem_of_here.
    + apply (Hshown "MLF" 5.00%Q); [|done|by vm_compute].
      apply list_elem_of_further, list_elem_of_further, list_elem_of_here.
Qed.

Lemma summary_shows_latest_policy_rates_witness :
  exists info,
    rates_summary Sample.env_no_dfr Sample.policy_table = Ok info
    /\ contains ("<li><strong>" +:+ "DFR" +:+ ":</strong> " +:+ format_3f 4.75%Q +:+ "%</li>")
         info.
Proof.
  destruct (rates_summary_rows Sample.env_no_dfr Sample.policy_table)
    as [info Hinfo]; [discriminate|].
  exists info. split; [exact Hinfo|].
  apply (proj2 (proj1 summary_shows_latest_policy_rates _ _ _ Hinfo) "DFR" 4.75%Q).
  - apply list_elem_of_further, list_elem_of_here.
  - reflexivity.
Defined.

Lemma summary_literal_counterexample :
  (exists info,
     rates_summary Sample.env_no_dfr Sample.policy_table = Ok info
     /\ latest_value Sample.policy_table "MRO" = Some (Some 4.50%Q)
     /\ latest_value Sample.policy_table "DFR" = Some (Some 4.75%Q)
     /\ latest_value Sample.policy_table "MLF" = Some (Some 5.00%Q)
     /\ ~ contains "MRO: 4.500%" info
     /\ ~ contains "DFR: 4.750%" info
     /\ ~ contains "MLF: 5.000%" info)
  /\ (exists info,
        rates_summary Sample.env_no_dfr Sample.stale_table = Ok info
        /\ cell Sample.stale_table "DFR" 0 = Some (Some 4.00%Q)
        /\ latest_value Sample.stale_table "DFR" = Some None
        /\ ~ contains "DFR" info).
Proof.
  split.
  - eexists. split; [by vm_compute|].
    split_and!; [done..| | |]; apply not_contains; by vm_compute.
  - eexists. split; [by vm_compute|].
    split_and!; [done..|]. apply not_contains. by vm_compute.
Qed.

(** ** More on the outer join *)

Section JoinContents.

Implicit Types (data : list (string * Series)) (s : Series) (d : Timestamp).

Lemma union_labels_elem acc ds d :
  d ∈ union_labels acc ds <-> d ∈ acc \/ d ∈ ds.
Proof.
  unfold union_labels. induction ds as [|x ds IH]; simpl.
  - rewrite elem_of_nil. tauto.
  - rewrite insert_label_elem, IH, elem_of_cons. tauto.
Qed.

Lemma foldl_union_labels_elem ss acc d :
  d ∈ foldl union_labels acc ss <-> d ∈ acc \/ exists ds, ds ∈ ss /\ d ∈ ds.
Proof.
  revert acc. induction ss as [|ds0 ss IH]; intros acc; simpl.
  - split; [by left|]. intros [?|(ds & Hds & _)]; [done|]. by apply elem_of_nil in Hds.
  - rewrite IH, union_labels_elem. split.
    + intros [[?|?]|(ds & Hds & Hd)]; [by left| |].
      * right. exists ds0. split; [apply list_elem_of_here|done].
      * right. exists ds. split; [by apply list_elem_of_further|done].
    + intros [?|(ds & Hds & Hd)]; [by left; left|].
      apply elem_of_cons in Hds as [->|Hds]; [by left; right|].
      right. eauto.
Qed.



Lemma join_index_elem data d :
  d ∈ df_index (DataFrame_of_dict data)
  <-> exists name s, (name, s) ∈ data /\ d ∈ series_index s.
Proof.
  unfold DataFrame_of_dict, union_indexes. simpl.
  rewrite foldl_union_labels_elem, elem_of_nil. split.
  - intros [[]|(ds & Hds & Hd)].
    apply list_elem_of_fmap in Hds as (s & -> & Hs).
    apply list_elem_of_fmap in Hs as ([name s'] & -> & Hin).
    by exists name, s'.
  - intros (name & s & Hin & Hd). right. exists (series_index s). split; [|done].
    apply list_elem_of_fmap. exists s. split; [done|].
    apply list_elem_of_fmap. by exists (name, s).
Qed.


End JoinContents.




(** ** More on the fetched table *)

Section FetchedTable.

Context (env : Env) (start : string).








End FetchedTable.

Lemma combined_names_fresh t f v :
  "MRO" ∉ column_names t ->
  column_names (combined t f v)
  = filter (fun n => n ∉ [MRO_FIXED; MRO_VARIABLE]) (column_names t) ++ ["MRO"].
Proof.
  intros Hfresh. rewrite combined_names. unfold column_names in *.
  rewrite set_assoc_fresh, fmap_app, filter_app by done. f_equal.
Qed.



(** X4: the columns of the returned table, in order: the fetched series in
    the order of [SERIES_KEYS]; when both MRO sub-series were fetched they
    are left out and "MRO" comes last. *)
Theorem fetched_table_columns env start w t :
  (fetch_ecb_rates env start w).1 = Ok t ->
  column_names t
  = if bool_decide (MRO_FIXED ∈ (fetched_series env start).*1
                    /\ MRO_VARIABLE ∈ (fetched_series env start).*1)
    then filter (fun n => n ∉ [MRO_FIXED; MRO_VARIABLE])
           (fetched_series env start).*1 ++ ["MRO"]
    else (fetched_series env start).*1.
Proof.
  rewrite fetch_ecb_rates_run. simpl. intros Ht.
  pose proof (fetched_series_no_mro env start) as Hfresh.
  destruct (merge_cases (fetched_series env start)) as [(sf & sv & Hf & Hv)|Hnb].
  - pose proof (merge_both _ sf sv Hf Hv) as Hm. unfold merge in *. rewrite Hm in Ht.
    match type of Ht with Ok ?c = _ => assert (t = c) as -> by congruence end.
    rewrite combined_names_fresh by (by rewrite DataFrame_of_dict_names).
    rewrite DataFrame_of_dict_names.
    rewrite bool_decide_eq_true_2; [done|].
    split; apply assoc_is_Some; eauto.
  - pose proof (merge_not_both _ Hnb) as Hm. unfold merge in *. rewrite Hm in Ht.
    assert (t = DataFrame_of_dict (fetched_series env start)) as -> by congruence.
    rewrite DataFrame_of_dict_names. by rewrite bool_decide_eq_false_2.
Qed.

Lemma fetched_table_columns_witness :
  column_names
    (mkDataFrame [Sample.d0101; Sample.d0102; Sample.d0103]
       [("MLF", [Some 5.00%Q; Some 5.25%Q; None]);
        ("EONIA", [Some 3.9%Q; None; None]);
        ("€STR", [None; Some 3.905%Q; None]);
        ("MRO", [Some ((0 + 4.50 + 4.75) / 2)%Q; None; None])])
  = ["MLF"; "EONIA"; "€STR"; "MRO"].
Proof.
  exact (fetched_table_columns Sample.env_no_dfr "1999-01" Sample.world0 _ eq_refl).
Defined.




(** ** More on the chart and the summary *)

Section Chart.

Implicit Types (t : DataFrame).

Lemma last_filter_lookup {A} (P : A -> Prop) `{!forall x, Decision (P x)}
    (l : list A) i x :
  l !! i = Some x -> P x ->
  (forall j y, (i < j)%nat -> l !! j = Some y -> ~ P y) ->
  last (filter P l) = Some x.
Proof.
  intros Hi HP Hlater.
  rewrite <- (take_drop_middle l i x Hi), filter_app, filter_cons_True by done.
  assert (filter P (drop (S i) l) = []) as ->.
  { apply elem_of_nil_inv. intros y [Hy Hin]%list_elem_of_filter.
    apply list_elem_of_lookup in Hin as [j Hj]. rewrite lookup_drop in Hj.
    apply (Hlater (S i + j)%nat y); [lia|done..]. }
  apply last_snoc.
Qed.

(** The last observation of a column that is not missing, with its date. *)
Lemma available_last t rate c i d v :
  assoc rate (df_columns t) = Some c ->
  df_index t !! i = Some d -> c !! i = Some (Some v) ->
  (forall j, (i < j)%nat -> c !! j = Some None \/ c !! j = None) ->
  last (available rate t) = Some (d, Some v).
Proof.
  intros Hc Hd Hv Hlater. unfold available, dropna, column_series. rewrite Hc.
  apply (last_filter_lookup _ _ i).
  - apply lookup_zip_Some. done.
  - done.
  - intros j [d' v'] Hj [_ Hv']%lookup_zip_Some. simpl.
    destruct (Hlater j Hj) as [H|H];
      pose proof (eq_trans (eq_sym Hv') H) as E; by simplify_eq.
Qed.


End Chart.

(** X6: the chart has one trace for each of MRO, DFR, MLF, €STR and EONIA
    that is a column, in that order, and no other trace; every trace plots
    its column against the index with a line of width 2, solid and in the
    default colour for the policy rates, dashed and in its fixed colour for
    the reference rates. *)
Theorem chart_traces t :
  sc_name <$> fig_data (build_figure t)
  = filter (fun n => n ∈ column_names t) ["MRO"; "DFR"; "MLF"; "€STR"; "EONIA"]
  /\ Forall (fun tr =>
       sc_x tr = df_index t
       /\ assoc (sc_name tr) (df_columns t) = Some (sc_y tr)
       /\ sc_hovertemplate tr
          = "%{x|%Y-%m-%d}<br>" +:+ sc_name tr +:+ ": %{y:.3f}%<br><extra></extra>"
       /\ sc_line tr
          = if bool_decide (sc_name tr ∈ policy_rates) then mkLine 2 None None
            else mkLine 2 (Some "dash")
                   (Some (if bool_decide (sc_name tr = "€STR")
                          then "rgba(240,128,128,0.8)"
                          else "rgba(176,196,222,0.8)")))
     (fig_data (build_figure t)).
Proof.
  split; [apply build_figure_traces|].
  unfold build_figure, add_reference_traces, add_policy_traces, policy_rates,
    reference_rates.
  cbn [foldl fig_data].
  repeat match goal with
         | |- context [assoc ?n (df_columns t)] =>
             let H := fresh "H" in
             destruct (assoc n (df_columns t)) eqn:H
         end;
    repeat (apply Forall_cons; split; [by split_and!|]); by apply Forall_nil.
Qed.



(** X8: the entry of a reference rate in the summary shows the last
    observation of its column that is not missing, with the date of that
    observation, even when later rows of the table exist. *)
Theorem summary_shows_last_available_reference_rate env t info rate label c i d v :
  rates_summary env t = Ok info ->
  (rate, label) ∈ [("€STR", "as of"); ("EONIA", "discontinued on")] ->
  assoc rate (df_columns t) = Some c ->
  df_index t !! i = Some d -> c !! i = Some (Some v) ->
  (forall j, (i < j)%nat -> c !! j = Some None \/ c !! j = None) ->
  contains ("<li><strong>" +:+ rate +:+ ":</strong> " +:+ format_3f v +:+ "% ("
            +:+ label +:+ " " +:+ strftime_Ymd d +:+ ")</li>") info.
Proof.
  intros Hinfo Hrate Hc Hd Hv Hlater.
  rewrite (rates_summary_entries env t info Hinfo).
  do 4 apply contains_app_r.
  pose proof (available_last t rate c i d v Hc Hd Hv Hlater) as Hlast.
  rewrite !elem_of_cons, elem_of_nil in Hrate.
  destruct Hrate as [[= -> ->]|[[= -> ->]|[]]].
  - unfold reference_item at 1. rewrite Hlast. apply contains_here.
  - apply contains_app_r. unfold reference_item. rewrite Hlast. apply contains_here.
Qed.

Lemma summary_shows_last_available_reference_rate_witness :
  exists info,
    rates_summary Sample.env_no_dfr Sample.stale_table = Ok info
    /\ contains ("<li><strong>" +:+ "€STR" +:+ ":</strong> " +:+ format_3f 3.905%Q
                 +:+ "% (" +:+ "as of" +:+ " " +:+ strftime_Ymd Sample.d0102 +:+ ")</li>")
         info.
Proof.
  destruct (rates_summary_rows Sample.env_no_dfr Sample.stale_table)
    as [info Hinfo]; [discriminate|].
  exists info. split; [exact Hinfo|].
  apply (summary_shows_last_available_reference_rate _ _ _ _ _
           [None; Some 3.905%Q] 1%nat _ _ Hinfo).
  - apply list_elem_of_here.
  - reflexivity.
  - reflexivity.
  - reflexivity.
  - intros j Hj. right. destruct j as [|[|j]]; [lia..|reflexivity].
Defined.

(** ** More on writing the output *)

Section Writing.

Implicit Types (root n : node) (p q : path) (c : string).

Lemma prefix_snoc_inv q p c :
  q `prefix_of` p ++ [c] -> q `prefix_of` p \/ q = p ++ [c].
Proof.
  intros [k Hk]. destruct k as [|x k _] using rev_ind.
  - right. by rewrite app_nil_r in Hk.
  - left. rewrite app_assoc in Hk. apply app_inj_tail in Hk as [-> _].
    by exists k.
Qed.

Lemma file_on_or_not root p : no_file_on root p \/ file_on root p.
Proof.
  induction p as [|c p IH] using rev_ind.
  - destruct root as [s|m].
    + right. exists [], s. done.
    + left. intros q ->%prefix_nil_inv s. done.
  - destruct IH as [Hno|Hon].
    + destruct (resolve root (p ++ [c])) as [[s|m]|] eqn:E.
      * right. by exists (p ++ [c]), s.
      * left. intros q [Hq| ->]%prefix_snoc_inv s; [by apply Hno|]. by rewrite E.
      * left. intros q [Hq| ->]%prefix_snoc_inv s; [by apply Hno|]. by rewrite E.
    + right. destruct Hon as (q & s & Hq & Hres). exists q, s. split; [|done].
      by apply prefix_app_r.
Qed.

Lemma file_on_not root p : file_on root p -> ~ no_file_on root p.
Proof. intros (q & s & Hq & Hres) Hno. by apply (Hno q Hq s). Qed.

Lemma resolve_below_file root q k s :
  resolve root q = Some (File s) -> k <> [] -> resolve root (q ++ k) = None.
Proof. intros Hq Hk. rewrite resolve_app, Hq. simpl. by destruct k. Qed.

Lemma resolve_parent root p c n :
  resolve root (p ++ [c]) = Some n -> is_dir_node (resolve root p) = true.
Proof.
  rewrite resolve_app. destruct (resolve root p) as [[s|m]|]; simpl; done.
Qed.

(** [os.makedirs] raises when a regular file is in the way. *)
Lemma makedirs_rev_file_on rname : forall root,
  rname <> [] -> file_on root (rev rname) -> is_Raise (makedirs_rev rname root).
Proof.
  induction rname as [|tail rhead IH]; intros root Hne Hon; [done|].
  set (head := rev rhead).
  assert (rev (tail :: rhead) = head ++ [tail]) as Hname by done.
  rewrite Hname in Hon.
  assert (forall r, is_dir_node (resolve r (head ++ [tail])) = false ->
            (bool_decide (is_Some (resolve r (head ++ [tail]))) = true
             \/ is_dir_node (resolve r head) = false) ->
            is_Raise (match os_mkdir (head ++ [tail]) r with
                      | Ok r' => Ok r'
                      | Raise e =>
                          if os_path_isdir r (head ++ [tail]) then Ok r else Raise e
                      end)) as Hmk.
  { intros r Hnd Hcase. unfold os_mkdir, os_path_isdir.
    rewrite bool_decide_eq_false_2 by (by destruct head).
    rewrite Hnd, removelast_last.
    destruct Hcase as [-> | ->]; [done|].
    by destruct (bool_decide (is_Some (resolve r (head ++ [tail])))). }
  cbn [makedirs_rev]. fold head. rewrite Hname.
  destruct Hon as (q & s & Hq & Hres).
  apply prefix_snoc_inv in Hq as [Hq| ->].
  - (* the file is at the directory part or above it *)
    assert (is_dir_node (resolve root head) = false
            /\ resolve root (head ++ [tail]) = None) as [Hhead Htail].
    { destruct Hq as [k ->]. destruct k as [|x k].
      - rewrite app_nil_r, Hres. split; [done|]. by apply (resolve_below_file _ _ _ s).
      - rewrite (resolve_below_file root q (x :: k) s) by done. split; [done|].
        rewrite <- app_assoc. by apply (resolve_below_file _ _ _ s). }
    assert (forall r0 : result node,
              (r0 = Ok root \/ is_Raise r0) ->
              is_Raise (root1 ← r0;
                        match os_mkdir (head ++ [tail]) root1 with
                        | Ok r' => Ok r'
                        | Raise e =>
                            if os_path_isdir root1 (head ++ [tail])
                            then Ok root1 else Raise e
                        end)) as Hstep.
    { intros r0 [->|Hr0]; [|by destruct r0].
      change (mbind ?f (Ok ?r)) with (f r). cbv beta.
      apply Hmk; [by rewrite Htail|by right]. }
    apply Hstep.
    destruct (negb (bool_decide (head = [])) && negb (os_path_exists root head))
      eqn:Hrec; [|by left].
    apply andb_true_iff in Hrec as [Hnil Hex].
    apply negb_true_iff, bool_decide_eq_false in Hnil.
    assert (is_Raise (makedirs_rev rhead root)) as Hraise.
    { apply IH; [by destruct rhead|]. by exists q, s. }
    destruct (makedirs_rev rhead root) as [r|e]; [done|].
    destruct (bool_decide (exn_type e = "FileExistsError")); [by left|by right].
  - (* the file is at the path itself *)
    pose proof (resolve_parent root head tail _ Hres) as Hdir.
    assert (negb (bool_decide (head = [])) && negb (os_path_exists root head) = false)
      as ->.
    { unfold os_path_exists. destruct (decide (head = [])) as [Hn|Hn].
      - by rewrite bool_decide_eq_true_2 by done.
      - rewrite !(bool_decide_eq_false_2 (head = [])) by done. simpl.
        apply negb_false_iff, bool_decide_eq_true.
        by destruct (resolve root head). }
    change (mbind ?f (Ok ?r)) with (f r). cbv beta.
    apply Hmk; [by rewrite Hres|]. left. rewrite Hres. by apply bool_decide_eq_true.
Qed.

(** When [os.makedirs] succeeds, and what it leaves. *)
Lemma os_makedirs_spec name root :
  (name <> [] /\ no_file_on root name -> os_makedirs name root = Ok (ensure_dirs root name))
  /\ (is_Ok (os_makedirs name root) -> name <> [] /\ no_file_on root name).
Proof.
  split; [intros []; by apply os_makedirs_ensure|].
  intros Hok. destruct name as [|c name].
  - by vm_compute in Hok.
  - split; [done|]. destruct (file_on_or_not root (c :: name)) as [Hno|Hon]; [done|].
    exfalso. unfold os_makedirs in Hok.
    pose proof (makedirs_rev_file_on (rev (c :: name)) root) as Hraise.
    rewrite rev_involutive in Hraise.
    destruct (makedirs_rev (rev (c :: name)) root); [|done].
    apply Hraise; [|done]. intros H. apply (f_equal (@rev _)) in H.
    by rewrite rev_involutive in H.
Qed.

Lemma resolve_ensure_dirs_child root p c :
  no_file_on root p ->
  resolve (ensure_dirs root p) (p ++ [c]) = resolve root (p ++ [c]).
Proof.
  intros Hno. destruct (resolve root p) as [[s|m]|] eqn:E.
  - by destruct (Hno p (reflexivity _) s).
  - rewrite ensure_dirs_present; [done|]. by rewrite E.
  - rewrite !resolve_app, ensure_dirs_new, E by done. simpl. by rewrite lookup_empty.
Qed.

(** Directories made on the way to [p] do not show at other paths. *)
Lemma resolve_ensure_dirs_other root p q :
  no_file_on root p -> ~ q `prefix_of` p ->
  resolve (ensure_dirs root p) q = resolve root q.
Proof.
  revert root q. induction p as [|c p IH]; intros root q Hno Hq; [done|].
  destruct (no_file_on_root _ _ Hno) as [m ->].
  destruct q as [|c' q]; [destruct Hq; apply prefix_nil|]. simpl.
  destruct (decide (c' = c)) as [->|Hne].
  - rewrite lookup_insert_eq. simpl.
    assert (~ q `prefix_of` p) as Hq' by (intros H; apply Hq; by apply prefix_cons).
    destruct (m !! c) as [n'|] eqn:Hc; simpl.
    + apply IH; [by eapply no_file_on_cons|done].
    + rewrite IH by (apply no_file_on_empty_dir || done).
      apply resolve_empty_dir. intros ->. apply Hq', prefix_nil.
  - by rewrite lookup_insert_ne.
Qed.

(** Writing a file at [p] does not show at other paths. *)
Lemma resolve_update_other root p q content :
  is_dir_node (resolve root p) = false -> ~ q `prefix_of` p ->
  resolve (update root p (File content)) q = resolve root q.
Proof.
  revert root q. induction p as [|c p IH]; intros root q Hnd Hq.
  - destruct q as [|c' q]; [destruct Hq; apply prefix_nil|].
    simpl in *. by destruct root.
  - destruct root as [s|m]; [done|].
    destruct q as [|c' q]; [destruct Hq; apply prefix_nil|].
    destruct (decide (c' = c)) as [->|Hne].
    + assert (~ q `prefix_of` p) as Hq' by (intros H; apply Hq; by apply prefix_cons).
      simpl in Hnd. destruct (m !! c) as [n'|] eqn:Hc; simpl in Hnd.
      * assert (update (Dir m) (c :: p) (File content)
                = Dir (<[c := update n' p (File content)]> m)) as ->.
        { destruct p; simpl; by rewrite ?Hc. }
        simpl. rewrite lookup_insert_eq, Hc. simpl. exact (IH n' q Hnd Hq').
      * destruct p as [|c2 p].
        -- simpl. rewrite lookup_insert_eq, Hc. simpl.
           destruct q; [destruct Hq'; apply prefix_nil|done].
        -- by rewrite update_cons_cons, Hc.
    + assert (exists m', update (Dir m) (c :: p) (File content) = Dir m'
                         /\ m' !! c' = m !! c') as (m' & -> & Hm').
      { destruct p as [|c2 p]; simpl.
        - eexists. split; [done|]. by rewrite lookup_insert_ne.
        - destruct (m !! c) as [n'|]; eexists; (split; [done|]);
            by rewrite ?lookup_insert_ne. }
      simpl. by rewrite Hm'.
Qed.


Lemma dirname_snoc p :
  os_path_dirname p <> [] -> p = os_path_dirname p ++ [List.last p EmptyString].
Proof.
  intros Hd. unfold os_path_dirname, os_path_split. simpl.
  apply app_removelast_last. intros ->. by apply Hd.
Qed.

End Writing.

Section RenderOutcome.

Context (env : Env).

(** A rendering that can succeed does, and leaves [rendered_fs]. *)
Lemma render_ok t p w :
  can_render t (w_fs w) p ->
  exists info,
    rates_summary env t = Ok info
    /\ create_interactive_plot env (Some t) p w
       = (Ok (Some p),
          mkWorld (rendered_fs (w_fs w) p (info +:+ fig_to_html env (build_figure t)))
            (w_stdout w ++ [saved_line p]) (w_calls w)).
Proof.
  intros (Hrows & Hd & Hno & Hnd).
  destruct (rates_summary_rows env t Hrows) as [info Hinfo].
  exists info. split; [done|].
  rewrite create_interactive_plot_run, Hinfo.
  rewrite (os_makedirs_ensure _ _ Hd Hno).
  pose proof (dirname_snoc p Hd) as Hp. unfold rendered_fs, saved_line.
  set (d := os_path_dirname p) in *. set (f := List.last p EmptyString) in *.
  clearbody d f. subst p.
  rewrite write_file_new; [done| |].
  - by apply ensure_dirs_is_dir.
  - by rewrite resolve_ensure_dirs_child.
Qed.

(** A rendering that cannot succeed raises and changes nothing. *)
Lemma render_raise t p w :
  ~ can_render t (w_fs w) p ->
  exists e, create_interactive_plot env (Some t) p w = (Raise e, w).
Proof.
  intros Hcannot. rewrite create_interactive_plot_run.
  destruct (rates_summary env t) as [info|e] eqn:Hinfo; [|by eexists].
  assert (df_index t <> []) as Hrows.
  { intros H. by rewrite (rates_summary_no_rows env t H) in Hinfo. }
  destruct (os_makedirs (os_path_dirname p) (w_fs w)) as [r1|e] eqn:Hmk; [|by eexists].
  destruct (proj2 (os_makedirs_spec (os_path_dirname p) (w_fs w))) as [Hd Hno].
  { by rewrite Hmk. }
  rewrite (os_makedirs_ensure _ _ Hd Hno) in Hmk. injection Hmk as <-.
  destruct (is_dir_node (resolve (w_fs w) p)) eqn:Hnd.
  - (* the output path is a directory *)
    assert (ensure_dirs (w_fs w) (os_path_dirname p) = w_fs w) as ->.
    { apply ensure_dirs_present. rewrite (dirname_snoc p Hd) in Hnd.
      destruct (resolve (w_fs w) (os_path_dirname p ++ [List.last p EmptyString]))
        as [n|] eqn:E; [|done].
      by apply resolve_parent in E. }
    unfold write_file. rewrite bool_decide_eq_false_2 by (intros ->; by apply Hd).
    rewrite Hnd. destruct w. by eexists.
  - destruct Hcannot. by split_and!.
Qed.

Lemma can_render_or_not t root p : can_render t root p \/ ~ can_render t root p.
Proof.
  unfold can_render.
  destruct (df_index t) as [|d idx]; [right; by intros [? _]|].
  destruct (os_path_dirname p) as [|c l] eqn:Hd; [right; by intros (_ & ? & _)|].
  destruct (is_dir_node (resolve root p)); [right; by intros (_ & _ & _ & ?)|].
  destruct (file_on_or_not root (c :: l)) as [Hno|Hon].
  - left. by split_and!.
  - right. intros (_ & _ & Hno & _). by apply file_on_not in Hon.
Qed.

End RenderOutcome.





(** X11: after a successful rendering the output file holds exactly the
    summary followed by the chart, whatever it held before, and every
    directory of the path is a directory. *)
Theorem rendered_file_content env t p w w1 :
  create_interactive_plot env (Some t) p w = (Ok (Some p), w1) ->
  exists info,
    rates_summary env t = Ok info
    /\ resolve (w_fs w1) p = Some (File (info +:+ fig_to_html env (build_figure t)))
    /\ (forall q, q `prefix_of` os_path_dirname p ->
          is_dir_node (resolve (w_fs w1) q) = true)
    /\ w_stdout w1 = w_stdout w ++ [saved_line p]
    /\ w_calls w1 = w_calls w.
Proof.
  intros Hrun.
  assert (can_render t (w_fs w) p) as Hcan.
  { destruct (can_render_or_not t (w_fs w) p) as [Hcan|Hcannot]; [done|].
    destruct (render_raise env t p w Hcannot) as [e He]. congruence. }
  destruct (render_ok env t p w Hcan) as (info & Hinfo & He).
  rewrite He in Hrun. injection Hrun as <-.
  destruct Hcan as (Hrows & Hd & Hno & Hnd).
  exists info. split; [done|]. simpl. unfold rendered_fs.
  pose proof (dirname_snoc p Hd) as Hp.
  assert (forall q, q `prefix_of` os_path_dirname p ->
            is_dir_node (resolve (ensure_dirs (w_fs w) (os_path_dirname p)) q) = true)
    as Hdirs by (intros q Hq; by apply ensure_dirs_is_dir).
  revert Hdirs. generalize (ensure_dirs (w_fs w) (os_path_dirname p)). intros r1 Hdirs.
  set (d := os_path_dirname p) in *. set (f := List.last p EmptyString) in *.
  clearbody d f. subst p. split_and!; [|  |done..].
  - apply resolve_update. by apply Hdirs.
  - intros q Hq. apply update_keeps_dirs; auto.
Qed.

Lemma rendered_file_content_witness :
  exists info w1,
    create_interactive_plot Sample.env_no_dfr (Some Sample.policy_table)
      ["static"; "html"; "ecb_rates.html"] Sample.world0 = (Ok (Some ["static"; "html"; "ecb_rates.html"]), w1)
    /\ resolve (w_fs w1) ["static"; "html"; "ecb_rates.html"]
       = Some (File (info +:+ fig_to_html Sample.env_no_dfr (build_figure Sample.policy_table))).
Proof.
  destruct (render_ok Sample.env_no_dfr Sample.policy_table
              ["static"; "html"; "ecb_rates.html"] Sample.world0)
    as (info0 & _ & Hrun).
  { split_and!; [discriminate|discriminate|apply no_file_on_empty_dir|reflexivity]. }
  destruct (rendered_file_content _ _ _ _ _ Hrun) as (info & _ & Hfile & _).
  exists info. eexists. split; [exact Hrun|exact Hfile].
Defined.



(** X13: a successful rendering touches only its own path: whatever is at a
    path that is neither the output path nor a directory above it stays as
    it was. *)
Theorem render_touches_only_its_path env t p w w1 q :
  create_interactive_plot env (Some t) p w = (Ok (Some p), w1) ->
  ~ q `prefix_of` p ->
  resolve (w_fs w1) q = resolve (w_fs w) q.
Proof.
  intros Hrun Hq.
  assert (can_render t (w_fs w) p) as Hcan.
  { destruct (can_render_or_not t (w_fs w) p) as [Hcan|Hcannot]; [done|].
    destruct (render_raise env t p w Hcannot) as [e He]. congruence. }
  destruct (render_ok env t p w Hcan) as (info & Hinfo & He).
  rewrite He in Hrun. injection Hrun as <-.
  destruct Hcan as (Hrows & Hd & Hno & Hnd). simpl. unfold rendered_fs.
  pose proof (dirname_snoc p Hd) as Hp.
  rewrite resolve_update_other; [| |done].
  - apply resolve_ensure_dirs_other; [done|].
    intros Hpre. apply Hq. rewrite Hp. by apply prefix_app_r.
  - rewrite Hp at 2. rewrite resolve_ensure_dirs_child by done. by rewrite <- Hp.
Qed.

Lemma render_touches_only_its_path_witness :
  exists w1,
    create_interactive_plot Sample.env_no_dfr (Some Sample.policy_table)
      ["static"; "html"; "ecb_rates.html"] Sample.world0
    = (Ok (Some ["static"; "html"; "ecb_rates.html"]), w1)
    /\ resolve (w_fs w1) ["static"; "css"] = resolve (w_fs Sample.world0) ["static"; "css"].
Proof.
  destruct (render_ok Sample.env_no_dfr Sample.policy_table
              ["static"; "html"; "ecb_rates.html"] Sample.world0)
    as (info0 & _ & Hrun).
  { split_and!; [discriminate|discriminate|apply no_file_on_empty_dir|reflexivity]. }
  eexists. split; [exact Hrun|].
  apply (render_touches_only_its_path _ _ _ _ _ _ Hrun).
  intros [k Hk]. discriminate.
Defined.

(** ** More on the top level *)

Section TopLevel.

Context (env : Env).

Lemma fetch_then_render_run start p w :
  exists t,
    (fetch_ecb_rates env start w).1 = Ok t
    /\ (rates ← fetch_ecb_rates env start; create_interactive_plot env (Some rates) p) w
       = create_interactive_plot env (Some t) p (fetch_ecb_rates env start w).2.
Proof.
  destruct (combine_mro_total (DataFrame_of_dict (fetched_series env start))) as [t Ht].
  exists t. rewrite M_bind_unfold, fetch_ecb_rates_run. unfold merge. by rewrite Ht.
Qed.

End TopLevel.



(** X15: an output path without a directory part makes [main] return 1
    whatever is fetched: [os.path.dirname] gives the empty string, on which
    [os.makedirs] raises, so no file is written. *)
Theorem main_bare_file_name env args w :
  (length (output args) <= 1)%nat ->
  (main env args w).1 = Ok 1%Z
  /\ w_fs (main env args w).2 = w_fs w.
Proof.
  intros Hlen. unfold main. rewrite main_with_run.
  destruct (fetch_then_render_run env (start_date args) (output args) w)
    as (t & Ht & ->).
  assert (w_fs (fetch_ecb_rates env (start_date args) w).2 = w_fs w) as Hfs
    by (by rewrite fetch_ecb_rates_run).
  destruct (render_raise env t (output args) (fetch_ecb_rates env (start_date args) w).2)
    as [e ->]; [|done].
  intros (_ & Hd & _). apply Hd.
  destruct (output args) as [|f [|g l]]; simpl in *; [done..|lia].
Qed.

Lemma main_bare_file_name_witness :
  (main Sample.env_no_dfr (mkArgs "1999-01" ["ecb_rates.html"]) Sample.world0).1 = Ok 1%Z.
Proof.
  apply (main_bare_file_name Sample.env_no_dfr (mkArgs "1999-01" ["ecb_rates.html"])).
  simpl. lia.
Defined.



(** ** Formatting to three decimals *)

Section Rounding.



End Rounding.



(** ** Nothing to show *)

Lemma join_no_observation data :
  (forall name s, (name, s) ∈ data -> s = []) ->
  df_index (DataFrame_of_dict data) = [].
Proof.
  intros Hempty. apply elem_of_nil_inv. intros d Hd.
  apply join_index_elem in Hd as (name & s & Hin & Hd).
  rewrite (Hempty name s Hin) in Hd. by apply elem_of_nil in Hd.
Qed.

(** X18: when no observation at all could be fetched, because every fetch
    raised or every fetched series is empty, [main] returns 1 with pandas'
    index error as the reported reason, and writes nothing. *)
Theorem main_without_observations env args w :
  (forall name s, (name, s) ∈ fetched_series env (start_date args) -> s = []) ->
  (main env args w).1 = Ok 1%Z
  /\ w_fs (main env args w).2 = w_fs w
  /\ w_stdout (main env args w).2
     = w_stdout w ++ fetch_errors env (start_date args)
       ++ ["Error generating visualization: single positional indexer is out-of-bounds"].
Proof.
  intros Hempty. unfold main. rewrite main_with_run.
  destruct (fetch_then_render_run env (start_date args) (output args) w)
    as (t & Ht & ->).
  assert (df_index t = []) as Hrows.
  { rewrite fetch_ecb_rates_run in Ht. simpl in Ht.
    destruct (merge_frame _ _ Ht) as [-> _]. by apply join_no_observation. }
  rewrite create_interactive_plot_run, (rates_summary_no_rows env t Hrows).
  rewrite fetch_ecb_rates_run. simpl. by rewrite <- app_assoc.
Qed.

Lemma main_without_observations_witness :
  (main Sample.env_down Sample.args0 Sample.world0).1 = Ok 1%Z.
Proof.
  apply (main_without_observations Sample.env_down Sample.args0 Sample.world0).
  intros name s Hin. by apply elem_of_nil in Hin.
Defined.

(** X19: a reference rate whose column has no observation that is not
    missing gets no entry in the summary, and the summary is still built. *)
Theorem reference_rate_without_observation env t c :
  df_index t <> [] ->
  assoc "EONIA" (df_columns t) = Some c ->
  Forall (fun v => v = None) c ->
  exists info,
    rates_summary env t = Ok info
    /\ info = summary_open
              +:+ summary_entry t "MRO" +:+ summary_entry t "DFR"
              +:+ summary_entry t "MLF"
              +:+ reference_item "€STR" "as of" (available "€STR" t)
              +:+ summary_close env.
Proof.
  intros Hrows Hc Hnone.
  destruct (rates_summary_rows env t Hrows) as [info Hinfo].
  exists info. split; [done|].
  rewrite (rates_summary_entries env t info Hinfo).
  assert (available "EONIA" t = []) as ->.
  { unfold available, dropna, column_series. rewrite Hc.
    apply elem_of_nil_inv. intros [d v] [Hv Hin]%list_elem_of_filter.
    apply list_elem_of_lookup in Hin as [i Hi].
    apply lookup_zip_Some in Hi as [_ Hi].
    eapply Forall_lookup in Hnone; [|exact Hi]. simpl in *. by subst v. }
  done.
Qed.

Lemma reference_rate_without_observation_witness :
  exists info,
    rates_summary Sample.env_no_dfr
      (mkDataFrame [Sample.d0101] [("EONIA", [None])]) = Ok info.
Proof.
  destruct (reference_rate_without_observation Sample.env_no_dfr
              (mkDataFrame [Sample.d0101] [("EONIA", [None])]) [None])
    as (info & Hinfo & _).
  - discriminate.
  - reflexivity.
  - by repeat constructor.
  - by exists info.
Defined.
